(** * pihole-twins: the log-line classifier, the resolver cache and the
    per-source streaming loop of [stream_pihole_logs.py]

    A shallow embedding of [PiHoleStreamer] and proofs about
    [parse_log_line], [resolve_hostname] and [stream_logs].

    Python [str] values are modelled as [string]; a character is a code
    point below 256 (the Latin-1 slice of Unicode), which covers everything
    dnsmasq writes to the Pi-hole log.  [isspace], [isdigit] and [lower]
    below are the Unicode definitions restricted to that range. *)

From Stdlib Require Import Ascii String ZArith Lia Bool.
From stdpp Require Import base option list gmap strings.

Local Open Scope nat_scope.

(* stdpp blocks the unfolding of string concatenation; the proofs below
   compute with it. *)
#[local] Arguments String.append !s1 s2 / : simpl nomatch.

(* ------------------------------------------------------------------ *)
(** ** Characters and strings as Python sees them *)

(** [str.isspace] and the regex class [\s]: TAB..CR, FS..US, SPACE, NEL, NBSP. *)
Definition isspace (a : ascii) : bool :=
  let n := nat_of_ascii a in
  ((9 <=? n) && (n <=? 13)) || ((28 <=? n) && (n <=? 32))
  || (n =? 133) || (n =? 160).

(** The regex class [\d]. *)
Definition isdigit (a : ascii) : bool :=
  let n := nat_of_ascii a in (48 <=? n) && (n <=? 57).

(** The regex class [[\d.]]. *)
Definition digit_or_dot (a : ascii) : bool :=
  isdigit a || (nat_of_ascii a =? 46).

(** The regex atom [.] (no DOTALL flag): anything but a line feed. *)
Definition dot (a : ascii) : bool := negb (nat_of_ascii a =? 10).

(** [str.lower] on one character: A-Z and the Latin-1 capitals. *)
Definition lower_char (a : ascii) : ascii :=
  let n := nat_of_ascii a in
  if ((65 <=? n) && (n <=? 90))
     || ((192 <=? n) && (n <=? 222) && negb (n =? 215))
  then ascii_of_nat (n + 32) else a.

Fixpoint lower (s : string) : string :=
  match s with
  | EmptyString => EmptyString
  | String a s' => String (lower_char a) (lower s')
  end.

Fixpoint forall_chars (c : ascii → bool) (s : string) : bool :=
  match s with
  | EmptyString => true
  | String a s' => c a && forall_chars c s'
  end.

(** [sub in s]. *)
Fixpoint str_in (sub s : string) : bool :=
  String.prefix sub s
  || match s with
     | EmptyString => false
     | String _ s' => str_in sub s'
     end.

(** Truth value of a [str]. *)
Definition truthy (s : string) : bool := negb (String.eqb s "").

(** [s[:k]], with Python's treatment of a negative or too large bound. *)
Definition slice_to (s : string) (k : Z) : string :=
  let n := Z.of_nat (String.length s) in
  let k' := if (k <? 0)%Z then Z.max 0 (k + n) else Z.min k n in
  String.substring 0 (Z.to_nat k') s.

Fixpoint lstrip (s : string) : string :=
  match s with
  | EmptyString => EmptyString
  | String a s' => if isspace a then lstrip s' else s
  end.

Fixpoint rstrip (s : string) : string :=
  match s with
  | EmptyString => EmptyString
  | String a s' =>
      match rstrip s' with
      | EmptyString => if isspace a then EmptyString else String a EmptyString
      | r => String a r
      end
  end.

(** [str.strip()]. *)
Definition strip (s : string) : string := rstrip (lstrip s).

(* ------------------------------------------------------------------ *)
(** ** The backtracking matcher behind [re.search]

    Only the constructs of the one pattern in the program are covered.  The
    matcher tries alternatives in the order of Python's engine: a lazy star
    tries the shortest repetition first, a greedy plus the longest, and
    [re.search] the leftmost start. *)

Inductive atom : Type :=
  | Lit (l : string)               (* literal text *)
  | LazyStar (c : ascii → bool)    (* c*?  *)
  | GreedyPlus (c : ascii → bool)  (* c+   *)
  | GroupOpen                      (* (    *)
  | GroupClose                     (* )    *)
  | EndAnchor.                     (* $    *)

(** What the program reads off a match object: [start(1)] and [end(1)]. *)
Record Match : Type := mkMatch { start1 : nat; end1 : nat }.

Fixpoint strip_prefix (l s : string) : option string :=
  match l with
  | EmptyString => Some s
  | String a l' =>
      match s with
      | EmptyString => None
      | String b s' => if Ascii.eqb a b then strip_prefix l' s' else None
      end
  end.

Fixpoint lazy_star (c : ascii → bool) (k : string → nat → option Match)
    (s : string) (pos : nat) : option Match :=
  match k s pos with
  | Some m => Some m
  | None =>
      match s with
      | EmptyString => None
      | String a s' => if c a then lazy_star c k s' (S pos) else None
      end
  end.

Fixpoint greedy_star (c : ascii → bool) (k : string → nat → option Match)
    (s : string) (pos : nat) : option Match :=
  match s with
  | EmptyString => k s pos
  | String a s' =>
      if c a then
        match greedy_star c k s' (S pos) with
        | Some m => Some m
        | None => k s pos
        end
      else k s pos
  end.

Definition greedy_plus (c : ascii → bool) (k : string → nat → option Match)
    (s : string) (pos : nat) : option Match :=
  match s with
  | EmptyString => None
  | String a s' => if c a then greedy_star c k s' (S pos) else None
  end.

(** [$] without MULTILINE: the end of the string, or just before a final
    line feed. *)
Definition at_end (s : string) : bool :=
  match s with
  | EmptyString => true
  | String a EmptyString => nat_of_ascii a =? 10
  | _ => false
  end.

(** Match pattern [p] against [s], which starts at index [pos] of the
    subject; [gs] and [ge] are the bounds of group 1 recorded so far. *)
Fixpoint match_here (p : list atom) (gs ge : nat) (s : string) (pos : nat)
    : option Match :=
  match p with
  | [] => Some (mkMatch gs ge)
  | Lit l :: p' =>
      match strip_prefix l s with
      | Some s' => match_here p' gs ge s' (pos + String.length l)
      | None => None
      end
  | LazyStar c :: p' => lazy_star c (match_here p' gs ge) s pos
  | GreedyPlus c :: p' => greedy_plus c (match_here p' gs ge) s pos
  | GroupOpen :: p' => match_here p' pos ge s pos
  | GroupClose :: p' => match_here p' gs pos s pos
  | EndAnchor :: p' => if at_end s then match_here p' gs ge s pos else None
  end.

Fixpoint search_from (p : list atom) (s : string) (pos : nat) : option Match :=
  match match_here p 0 0 s pos with
  | Some m => Some m
  | None =>
      match s with
      | EmptyString => None
      | String _ s' => search_from p s' (S pos)
      end
  end.

(** [re.search(p, s)]. *)
Definition re_search (p : list atom) (s : string) : option Match :=
  search_from p s 0.

(** [match.group(1)]. *)
Definition group1 (s : string) (m : Match) : string :=
  String.substring (start1 m) (end1 m - start1 m) s.

(** [r'query\[.*?\].*?from\s+([\d.]+)$'] *)
Definition query_pattern : list atom :=
  [ Lit "query["; LazyStar dot; Lit "]"; LazyStar dot; Lit "from";
    GreedyPlus isspace; GroupOpen; GreedyPlus digit_or_dot; GroupClose;
    EndAnchor ].

(** *** What the pattern means

    [accepts p gs ge s pos m]: some way of matching [p] against a prefix of
    [s] records [m].  It is the declarative counterpart of [match_here],
    with no order among the alternatives. *)
Inductive accepts : list atom → nat → nat → string → nat → Match → Prop :=
  | acc_nil gs ge s pos :
      accepts [] gs ge s pos (mkMatch gs ge)
  | acc_lit l p gs ge s pos m :
      accepts p gs ge s (pos + String.length l) m →
      accepts (Lit l :: p) gs ge (l +:+ s) pos m
  | acc_lazy c p gs ge x s pos m :
      forall_chars c x = true →
      accepts p gs ge s (pos + String.length x) m →
      accepts (LazyStar c :: p) gs ge (x +:+ s) pos m
  | acc_plus c p gs ge x s pos m :
      x ≠ EmptyString →
      forall_chars c x = true →
      accepts p gs ge s (pos + String.length x) m →
      accepts (GreedyPlus c :: p) gs ge (x +:+ s) pos m
  | acc_open p gs ge s pos m :
      accepts p pos ge s pos m →
      accepts (GroupOpen :: p) gs ge s pos m
  | acc_close p gs ge s pos m :
      accepts p gs pos s pos m →
      accepts (GroupClose :: p) gs ge s pos m
  | acc_end p gs ge s pos m :
      at_end s = true →
      accepts p gs ge s pos m →
      accepts (EndAnchor :: p) gs ge s pos m.

Definition newline : string := String (ascii_of_nat 10) EmptyString.

(** A line of the form [... query[a]b from<ws>addr], up to a final line
    feed: what [query_pattern] describes, with [addr] the trailing token. *)
Definition query_line (line addr : string) : Prop :=
  ∃ pre a b ws t,
    line = pre +:+ "query[" +:+ a +:+ "]" +:+ b +:+ "from" +:+ ws +:+ addr +:+ t
    ∧ forall_chars dot a = true
    ∧ forall_chars dot b = true
    ∧ ws ≠ EmptyString ∧ forall_chars isspace ws = true
    ∧ addr ≠ EmptyString ∧ forall_chars digit_or_dot addr = true
    ∧ (t = EmptyString ∨ t = newline).

(** A well-formed dotted-decimal address, as the specification speaks of
    it: four decimal numbers between 0 and 255, separated by dots.  The
    program contains no such check; the definition only serves to state
    what [query_pattern] does not enforce. *)
Fixpoint split_dots (s : string) : list string :=
  match s with
  | EmptyString => [EmptyString]
  | String a s' =>
      if nat_of_ascii a =? 46 then EmptyString :: split_dots s'
      else
        match split_dots s' with
        | field :: fields => String a field :: fields
        | [] => [String a EmptyString]
        end
  end.

Fixpoint decimal_value (acc : nat) (s : string) : nat :=
  match s with
  | EmptyString => acc
  | String a s' => decimal_value (10 * acc + (nat_of_ascii a - 48)) s'
  end.

Definition octet (s : string) : bool :=
  negb (String.eqb s "") && forall_chars isdigit s
  && (String.length s <=? 3) && (decimal_value 0 s <=? 255).

Definition dotted_decimal (s : string) : bool :=
  let fields := split_dots s in
  (length fields =? 4) && forallb octet fields.

(* ------------------------------------------------------------------ *)
(** ** [class Colors] *)

Module Colors.
Definition ESC : string := String (ascii_of_nat 27) EmptyString.
Definition RESET : string := ESC +:+ "[0m".
Definition BOLD : string := ESC +:+ "[1m".
Definition RED : string := ESC +:+ "[91m".
Definition GREEN : string := ESC +:+ "[92m".
Definition YELLOW : string := ESC +:+ "[93m".
Definition BLUE : string := ESC +:+ "[94m".
Definition MAGENTA : string := ESC +:+ "[95m".
Definition CYAN : string := ESC +:+ "[96m".
End Colors.

(* ------------------------------------------------------------------ *)
(** ** [class PiHoleStreamer] *)

(** The paramiko session is opaque here. *)
Inductive SSHClient : Type := ssh_session.

Record PiHoleStreamer : Type := mkStreamer {
  hostname : string;
  username : string;
  color : string;
  client : option SSHClient;
  dns_cache : gmap string string;     (* IP -> hostname cache *)
  last_query_ip : option string       (* last query IP, for block lines *)
}.

Definition __init__ (hostname username color : string) : PiHoleStreamer :=
  mkStreamer hostname username color None ∅ None.

Definition connect (self : PiHoleStreamer) : PiHoleStreamer :=
  mkStreamer (hostname self) (username self) (color self) (Some ssh_session)
             (dns_cache self) (last_query_ip self).

Definition set_dns_cache (self : PiHoleStreamer) (c : gmap string string)
    : PiHoleStreamer :=
  mkStreamer (hostname self) (username self) (color self) (client self)
             c (last_query_ip self).

Definition set_last_query_ip (self : PiHoleStreamer) (ip : option string)
    : PiHoleStreamer :=
  mkStreamer (hostname self) (username self) (color self) (client self)
             (dns_cache self) ip.

(** The test on line 77 of the source. *)
Definition is_block_line (line : string) : bool :=
  str_in "gravity blocked" (lower line)
  || str_in "exactly blocked" (lower line)
  || str_in "exactly denied" (lower line).

(** [parse_log_line]: the returned tuple is
    [(query_part, ip, is_blocked)]; the second component of the result is
    the streamer after the call. *)
Definition parse_log_line (self : PiHoleStreamer) (line : string)
    : option (string * string * bool) * PiHoleStreamer :=
  match re_search query_pattern line with
  | Some m =>
      let ip := group1 line m in
      let query_part := slice_to line (Z.of_nat (start1 m) - 6) in
      let is_blocked := false in
      (Some (query_part, ip, is_blocked), set_last_query_ip self (Some ip))
  | None =>
      if is_block_line line then
        match last_query_ip self with
        | Some last =>
            if truthy last then (Some (line, last, true), self)
            else (None, self)
        | None => (None, self)
        end
      else (None, self)
  end.

(** Classify a list of lines one after the other on the same streamer. *)
Fixpoint parse_all (self : PiHoleStreamer) (lines : list string)
    : list (option (string * string * bool)) * PiHoleStreamer :=
  match lines with
  | [] => ([], self)
  | line :: rest =>
      let '(r, self') := parse_log_line self line in
      let '(rs, self'') := parse_all self' rest in
      (r :: rs, self'')
  end.

(* ------------------------------------------------------------------ *)
(** ** The resolver and the streaming loop

    Everything outside the program is explicit: the reverse lookup and the
    clock are oracles, [World] records how often each has been consulted,
    [stdout] is the list of values [readline] returns, and the queue is the
    list of strings put on it, oldest first.

    A run is described for given values of [readline]: a failure of
    [exec_command] or of a read, and the cancellation of the coroutine, are
    not part of the model, and no statement below is about them. *)

Inductive exn : Type :=
  | socket_herror
  | socket_gaierror
  | UnicodeError
  | RuntimeError (msg : string).

Inductive result (A : Type) : Type :=
  | Return (a : A)
  | Raise (e : exn).

Arguments Return {A} a.
Arguments Raise {A} e.

(** The clause [except (socket.herror, socket.gaierror)]. *)
Definition caught (e : exn) : bool :=
  match e with
  | socket_herror | socket_gaierror => true
  | _ => false
  end.

Record World : Type := mkWorld {
  lookups : list string;   (* addresses looked up so far, oldest first *)
  clock : nat              (* number of times the clock was read *)
}.

Definition log_lookup (w : World) (ip : string) : World :=
  mkWorld (lookups w ++ [ip]) (clock w).

Definition tick (w : World) : World := mkWorld (lookups w) (S (clock w)).

Section Streaming.

(** [socket.gethostbyaddr(ip)[0]], given the lookups made before. *)
Variable gethostbyaddr : list string → string → result string.

(** [datetime.now().strftime('%H:%M:%S')] at the n-th reading of the clock. *)
Variable strftime_now : nat → string.

Definition resolve_hostname (self : PiHoleStreamer) (w : World) (ip : string)
    : result string * PiHoleStreamer * World :=
  match dns_cache self !! ip with
  | Some cached => (Return cached, self, w)
  | None =>
      match gethostbyaddr (lookups w) ip with
      | Return name =>
          (Return name, set_dns_cache self (<[ip := name]> (dns_cache self)),
           log_lookup w ip)
      | Raise e =>
          if caught e then
            (Return ip, set_dns_cache self (<[ip := ip]> (dns_cache self)),
             log_lookup w ip)
          else (Raise e, self, log_lookup w ip)
      end
  end.

(** The condition of the [continue] on lines 118-119. *)
Definition host_filter_rejects (filter_host : option string)
    (resolved ip : string) : bool :=
  match filter_host with
  | Some f =>
      truthy f && negb (str_in (lower f) (lower resolved))
      && negb (String.eqb f ip)
  | None => false
  end.

Definition host_display (resolved ip : string) : string :=
  if String.eqb resolved ip then ip else resolved +:+ " (" +:+ ip +:+ ")".

(** The f-strings of lines 126, 128 and 135. *)
Definition format_blocked (self : PiHoleStreamer)
    (timestamp display query_part : string) : string :=
  Colors.BOLD +:+ "[" +:+ timestamp +:+ "] " +:+ color self +:+ "["
  +:+ hostname self +:+ "]" +:+ Colors.RESET +:+ " " +:+ Colors.YELLOW
  +:+ "[" +:+ display +:+ "]" +:+ Colors.RESET +:+ " " +:+ Colors.RED
  +:+ query_part +:+ Colors.RESET.

Definition format_query (self : PiHoleStreamer)
    (timestamp display query_part : string) : string :=
  "[" +:+ timestamp +:+ "] " +:+ color self +:+ "[" +:+ hostname self
  +:+ "]" +:+ Colors.RESET +:+ " " +:+ Colors.YELLOW +:+ "[" +:+ display
  +:+ "]" +:+ Colors.RESET +:+ " " +:+ query_part.

Definition format_unparsed (self : PiHoleStreamer) (timestamp line : string)
    : string :=
  "[" +:+ timestamp +:+ "] " +:+ color self +:+ "[" +:+ hostname self
  +:+ "]" +:+ Colors.RESET +:+ " " +:+ line.

(** Lines 104-136: what the loop does with one stripped, non-empty line. *)
Definition handle_line (show_blocked_only : bool) (filter_host : option string)
    (verbose : bool) (self : PiHoleStreamer) (w : World) (queue : list string)
    (line : string) : result unit * PiHoleStreamer * World * list string :=
  let '(parsed, self) := parse_log_line self line in
  match parsed with
  | Some (query_part, ip, is_blocked) =>
      if show_blocked_only && negb is_blocked then (Return tt, self, w, queue)
      else
        match resolve_hostname self w ip with
        | (Raise e, self, w) => (Raise e, self, w, queue)
        | (Return resolved, self, w) =>
            if host_filter_rejects filter_host resolved ip
            then (Return tt, self, w, queue)
            else
              let timestamp := strftime_now (clock w) in
              let display := host_display resolved ip in
              let formatted :=
                if is_blocked
                then format_blocked self timestamp display query_part
                else format_query self timestamp display query_part in
              (Return tt, self, tick w, queue ++ [formatted])
        end
  | None =>
      if verbose
         && negb (match filter_host with Some f => truthy f | None => false end)
         && negb show_blocked_only
      then
        let timestamp := strftime_now (clock w) in
        (Return tt, self, tick w, queue ++ [format_unparsed self timestamp line])
      else (Return tt, self, w, queue)
  end.

(** The [while True] loop over the values returned by [readline]. *)
Fixpoint stream_loop (show_blocked_only : bool) (filter_host : option string)
    (verbose : bool) (stdout : list string) (self : PiHoleStreamer)
    (w : World) (queue : list string)
    : result unit * PiHoleStreamer * World * list string :=
  match stdout with
  | [] => (Return tt, self, w, queue)
  | raw :: rest =>
      if negb (truthy raw) then (Return tt, self, w, queue)
      else
        let line := strip raw in
        if negb (truthy line)
        then stream_loop show_blocked_only filter_host verbose rest self w queue
        else
          match handle_line show_blocked_only filter_host verbose self w
                  queue line with
          | (Return _, self, w, queue) =>
              stream_loop show_blocked_only filter_host verbose rest self w queue
          | (Raise e, self, w, queue) => (Raise e, self, w, queue)
          end
  end.

Definition stream_logs (self : PiHoleStreamer) (stdout : list string)
    (w : World) (queue : list string) (show_blocked_only : bool)
    (filter_host : option string) (verbose : bool)
    : result unit * PiHoleStreamer * World * list string :=
  match client self with
  | None =>
      (Raise (RuntimeError "Not connected. Call connect() first."),
       self, w, queue)
  | Some _ =>
      stream_loop show_blocked_only filter_host verbose stdout self w queue
  end.

End Streaming.

(** The cache accounts for every reverse lookup made so far, and no address
    was looked up twice. *)
Definition cache_covers (self : PiHoleStreamer) (w : World) : Prop :=
  NoDup (lookups w) ∧ ∀ ip, ip ∈ lookups w → is_Some (dns_cache self !! ip).

(** The two lines of the end-to-end scenario. *)
Definition scenario_query : string :=
  "Oct  4 14:18:46: query[A] example.com from 192.168.1.100".

Definition scenario_block : string :=
  "Oct  4 14:18:47: gravity blocked ads.example.com is 0.0.0.0".

(** Stand-ins for the two oracles, for concrete runs: a resolver that knows
    one host, a resolver that fails the way [socket.gethostbyaddr] does on
    an address with an empty label, and a clock that has stopped. *)
Definition mock_lookup (_ : list string) (ip : string) : result string :=
  if String.eqb ip "192.168.1.100" then Return "laptop.local"
  else Raise socket_herror.

Definition idna_lookup (_ : list string) (ip : string) : result string :=
  if String.eqb ip ".." then Raise UnicodeError else Raise socket_gaierror.

Definition mock_clock (_ : nat) : string := "14:18:50".

(** The form of every address the classifier hands on: a non-empty run of
    digits and dots. *)
Definition is_token (a : string) : bool :=
  truthy a && forall_chars digit_or_dot a.

(** The phrases tested on line 77 of the source. *)
Definition block_phrases : list string :=
  ["gravity blocked"; "exactly blocked"; "exactly denied"].

(** The address of the latest query among the results of [parse_log_line],
    [start] if there is none. *)
Definition last_query_addr (start : option string)
    (events : list (option (string * string * bool))) : option string :=
  foldl (λ acc ev,
           match ev with
           | Some (_, a, false) => Some a
           | _ => acc
           end) start events.

(** The lines the loop of [stream_logs] hands to [parse_log_line]: the
    values read before the first empty one, stripped, the empty ones left
    out. *)
Fixpoint effective_lines (stdout : list string) : list string :=
  match stdout with
  | [] => []
  | raw :: rest =>
      if truthy raw then
        (if truthy (strip raw) then [strip raw] else [])
        ++ effective_lines rest
      else []
  end.

(** What identifies a streamer and its session. *)
Definition same_session (self self' : PiHoleStreamer) : Prop :=
  hostname self' = hostname self ∧ username self' = username self
  ∧ color self' = color self ∧ client self' = client self.

(** Every cache entry of [self] is still there, unchanged, in [self']. *)
Definition cache_extends (self self' : PiHoleStreamer) : Prop :=
  ∀ k v, dns_cache self !! k = Some v → dns_cache self' !! k = Some v.

(** [handle_line] over a list of lines, until one raises. *)
Fixpoint handle_all (gethostbyaddr : list string → string → result string)
    (strftime_now : nat → string) (show_blocked_only : bool)
    (filter_host : option string) (verbose : bool) (lines : list string)
    (self : PiHoleStreamer) (w : World) (queue : list string)
    : result unit * PiHoleStreamer * World * list string :=
  match lines with
  | [] => (Return tt, self, w, queue)
  | line :: rest =>
      match handle_line gethostbyaddr strftime_now show_blocked_only
              filter_host verbose self w queue line with
      | (Return _, self, w, queue) =>
          handle_all gethostbyaddr strftime_now show_blocked_only
            filter_host verbose rest self w queue
      | (Raise e, self, w, queue) => (Raise e, self, w, queue)
      end
  end.

(** A connected streamer, a world in which nothing has happened yet, and
    what [readline] returns for the scenario: the two lines, each with its
    line terminator, a blank line between them, then the end of the
    stream. *)
Definition scenario_self : PiHoleStreamer :=
  connect (__init__ "pihole1" "pi" Colors.CYAN).

Definition scenario_world : World := mkWorld [] 0.

Definition scenario_stdout : list string :=
  [scenario_query +:+ newline; newline; scenario_block +:+ newline; ""].

(* ================================================================== *)
(** * Properties *)

(** ** Strings *)

Lemma append_assoc (x y z : string) : (x +:+ y) +:+ z = x +:+ y +:+ z.
Proof. induction x as [|a x IH]; simpl; [reflexivity | by rewrite IH]. Qed.

Lemma append_empty_r (x : string) : x +:+ "" = x.
Proof. induction x as [|a x IH]; simpl; [reflexivity | by rewrite IH]. Qed.

Lemma length_append (x y : string) :
  String.length (x +:+ y) = String.length x + String.length y.
Proof. induction x as [|a x IH]; simpl; [reflexivity | by rewrite IH]. Qed.

Lemma forall_chars_append c (x y : string) :
  forall_chars c (x +:+ y) = forall_chars c x && forall_chars c y.
Proof.
  induction x as [|a x IH]; simpl; [reflexivity|].
  by rewrite IH, andb_assoc.
Qed.

Lemma substring_prefix (x y : string) :
  String.substring 0 (String.length x) (x +:+ y) = x.
Proof.
  induction x as [|a x IH]; simpl.
  - by destruct y.
  - by rewrite IH.
Qed.

Lemma substring_skip (x y : string) (n : nat) :
  String.substring (String.length x) n (x +:+ y) = String.substring 0 n y.
Proof.
  induction x as [|a x IH]; simpl; [reflexivity | apply IH].
Qed.

Lemma substring_middle (x y z : string) :
  String.substring (String.length x) (String.length y) (x +:+ y +:+ z) = y.
Proof. by rewrite substring_skip, substring_prefix. Qed.

(** ** The matcher against its declarative meaning *)

Lemma strip_prefix_Some (l s s' : string) :
  strip_prefix l s = Some s' ↔ s = l +:+ s'.
Proof.
  revert s. induction l as [|a l IH]; intros s; simpl.
  - split; congruence.
  - destruct s as [|b s]; [split; discriminate|].
    destruct (Ascii.eqb_spec a b) as [->|Hne].
    + rewrite IH. split; congruence.
    + split; [discriminate | intros [=]; congruence].
Qed.

Lemma strip_prefix_append (l s : string) : strip_prefix l (l +:+ s) = Some s.
Proof. by apply strip_prefix_Some. Qed.

Section Continuation.

Variable c : ascii → bool.
Variable k : string → nat → option Match.

Lemma lazy_star_sound (s : string) (pos : nat) (m : Match) :
  lazy_star c k s pos = Some m →
  ∃ x s', s = x +:+ s' ∧ forall_chars c x = true
          ∧ k s' (pos + String.length x) = Some m.
Proof.
  revert pos. induction s as [|a s IH]; intros pos; simpl.
  - destruct (k "" pos) eqn:Hk; [|discriminate].
    intros [= ->]. exists "", "". by rewrite Nat.add_0_r.
  - destruct (k (String a s) pos) eqn:Hk.
    + intros [= ->]. exists "", (String a s). by rewrite Nat.add_0_r.
    + destruct (c a) eqn:Hc; [|discriminate].
      intros (x & s' & -> & Hx & Hm)%IH.
      exists (String a x), s'. simpl. rewrite Hc, Hx.
      by rewrite <- Nat.add_succ_comm.
Qed.

Lemma lazy_star_complete (x s : string) (pos : nat) :
  forall_chars c x = true →
  is_Some (k s (pos + String.length x)) →
  is_Some (lazy_star c k (x +:+ s) pos).
Proof.
  revert pos. induction x as [|a x IH]; intros pos; simpl.
  - rewrite Nat.add_0_r. intros _ [m Hm].
    destruct s; simpl; by rewrite Hm.
  - intros [Ha Hx]%andb_true_iff Hk.
    destruct (k (String a (x +:+ s)) pos); [done|].
    rewrite Ha. apply IH; [done|]. by rewrite Nat.add_succ_comm.
Qed.

Lemma greedy_star_sound (s : string) (pos : nat) (m : Match) :
  greedy_star c k s pos = Some m →
  ∃ x s', s = x +:+ s' ∧ forall_chars c x = true
          ∧ k s' (pos + String.length x) = Some m.
Proof.
  revert pos. induction s as [|a s IH]; intros pos; simpl.
  - intros Hk. exists "", "". by rewrite Nat.add_0_r.
  - assert (Hhere : k (String a s) pos = Some m →
      ∃ x s', String a s = x +:+ s' ∧ forall_chars c x = true
              ∧ k s' (pos + String.length x) = Some m).
    { intros Hk. exists "", (String a s). by rewrite Nat.add_0_r. }
    destruct (c a) eqn:Hc; [|done].
    destruct (greedy_star c k s (S pos)) eqn:Hg; [|done].
    intros [= ->]. apply IH in Hg as (x & s' & -> & Hx & Hm).
    exists (String a x), s'. simpl. rewrite Hc, Hx.
    by rewrite <- Nat.add_succ_comm.
Qed.

Lemma greedy_star_complete (x s : string) (pos : nat) :
  forall_chars c x = true →
  is_Some (k s (pos + String.length x)) →
  is_Some (greedy_star c k (x +:+ s) pos).
Proof.
  revert pos. induction x as [|a x IH]; intros pos; simpl.
  - rewrite Nat.add_0_r. intros _ Hk.
    destruct s as [|b s]; simpl; [done|].
    destruct (c b); [|done].
    by destruct (greedy_star c k s (S pos)).
  - intros [Ha Hx]%andb_true_iff Hk. rewrite Ha.
    destruct (IH (S pos) Hx) as [m Hm]; [by rewrite Nat.add_succ_comm|].
    by rewrite Hm.
Qed.

Lemma greedy_plus_sound (s : string) (pos : nat) (m : Match) :
  greedy_plus c k s pos = Some m →
  ∃ x s', s = x +:+ s' ∧ x ≠ "" ∧ forall_chars c x = true
          ∧ k s' (pos + String.length x) = Some m.
Proof.
  destruct s as [|a s]; simpl; [discriminate|].
  destruct (c a) eqn:Hc; [|discriminate].
  intros (x & s' & -> & Hx & Hm)%greedy_star_sound.
  exists (String a x), s'. simpl. rewrite Hc, Hx.
  by rewrite <- Nat.add_succ_comm.
Qed.

Lemma greedy_plus_complete (x s : string) (pos : nat) :
  x ≠ "" →
  forall_chars c x = true →
  is_Some (k s (pos + String.length x)) →
  is_Some (greedy_plus c k (x +:+ s) pos).
Proof.
  destruct x as [|a x]; [done|]. simpl.
  intros _ [Ha Hx]%andb_true_iff Hk. rewrite Ha.
  apply greedy_star_complete; [done|]. by rewrite Nat.add_succ_comm.
Qed.

End Continuation.

Lemma match_here_sound (p : list atom) gs ge (s : string) pos (m : Match) :
  match_here p gs ge s pos = Some m → accepts p gs ge s pos m.
Proof.
  revert gs ge s pos. induction p as [|[l|c|c| | |] p IH]; intros gs ge s pos; simpl.
  - intros [= <-]. constructor.
  - destruct (strip_prefix l s) as [s'|] eqn:Hl; [|discriminate].
    apply strip_prefix_Some in Hl as ->. intros Hm. constructor. by apply IH.
  - intros (x & s' & -> & Hx & Hm)%lazy_star_sound. constructor; [done|]. by apply IH.
  - intros (x & s' & -> & Hne & Hx & Hm)%greedy_plus_sound.
    constructor; [done..|]. by apply IH.
  - intros Hm. constructor. by apply IH.
  - intros Hm. constructor. by apply IH.
  - destruct (at_end s) eqn:He; [|discriminate].
    intros Hm. constructor; [done|]. by apply IH.
Qed.

Lemma match_here_complete (p : list atom) gs ge (s : string) pos (m : Match) :
  accepts p gs ge s pos m → is_Some (match_here p gs ge s pos).
Proof.
  induction 1; simpl.
  - done.
  - by rewrite strip_prefix_append.
  - by apply lazy_star_complete.
  - by apply greedy_plus_complete.
  - done.
  - done.
  - by rewrite H.
Qed.

Lemma search_from_sound (p : list atom) (s : string) pos (m : Match) :
  search_from p s pos = Some m →
  ∃ pre suf, s = pre +:+ suf ∧ accepts p 0 0 suf (pos + String.length pre) m.
Proof.
  revert pos. induction s as [|a s IH]; intros pos; simpl.
  - destruct (match_here p 0 0 "" pos) eqn:Hm; [|discriminate].
    intros [= ->]. exists "", "". rewrite Nat.add_0_r.
    split; [done|]. by apply match_here_sound.
  - destruct (match_here p 0 0 (String a s) pos) eqn:Hm.
    + intros [= ->]. exists "", (String a s). rewrite Nat.add_0_r.
      split; [done|]. by apply match_here_sound.
    + intros (pre & suf & -> & Hacc)%IH.
      exists (String a pre), suf. simpl. by rewrite <- Nat.add_succ_comm.
Qed.

Lemma search_from_complete (p : list atom) (pre suf : string) pos (m : Match) :
  accepts p 0 0 suf (pos + String.length pre) m →
  is_Some (search_from p (pre +:+ suf) pos).
Proof.
  revert pos. induction pre as [|a pre IH]; intros pos; simpl.
  - rewrite Nat.add_0_r. intros [m' Hm']%match_here_complete.
    destruct suf; simpl; by rewrite Hm'.
  - intros Hacc.
    destruct (match_here p 0 0 (String a (pre +:+ suf)) pos); [done|].
    apply IH. by rewrite Nat.add_succ_comm.
Qed.

(** ** The query pattern *)

Lemma forall_chars_impl (c d : ascii → bool) (s : string) :
  (∀ a, c a = true → d a = true) →
  forall_chars c s = true → forall_chars d s = true.
Proof.
  intros Hcd. induction s as [|a s IH]; simpl; [done|].
  intros [Ha Hs]%andb_true_iff. by rewrite (Hcd a Ha), IH.
Qed.

Lemma digit_or_dot_not_space (a : ascii) :
  digit_or_dot a = true → negb (isspace a) = true.
Proof. destruct a as [[] [] [] [] [] [] [] []]; vm_compute; congruence. Qed.

Lemma nonempty_snoc (c : ascii → bool) (ws : string) :
  ws ≠ "" → forall_chars c ws = true →
  ∃ ws0 w, ws = ws0 +:+ String w "" ∧ c w = true.
Proof.
  induction ws as [|a ws IH]; [done|]. intros _. simpl.
  intros [Ha Hws]%andb_true_iff.
  destruct ws as [|b ws].
  - by exists "", a.
  - destruct IH as (ws0 & w & Heq & Hw); [done..|].
    exists (String a ws0), w. simpl. by rewrite <- Heq.
Qed.

(** The text after the last white-space character of a string is
    determined by the string. *)
Lemma token_unique (u u' g g' : string) (w w' : ascii) :
  isspace w = true → isspace w' = true →
  forall_chars (λ a, negb (isspace a)) g = true →
  forall_chars (λ a, negb (isspace a)) g' = true →
  u +:+ String w g = u' +:+ String w' g' →
  u = u' ∧ g = g'.
Proof.
  intros Hw Hw' Hg Hg'. revert u'.
  induction u as [|a u IH]; intros [|a' u']; simpl; intros [= -> Heq].
  - done.
  - exfalso. rewrite Heq, forall_chars_append in Hg. simpl in Hg.
    rewrite Hw', andb_false_r in Hg. done.
  - exfalso. rewrite <- Heq, forall_chars_append in Hg'. simpl in Hg'.
    rewrite Hw, andb_false_r in Hg'. done.
  - destruct (IH _ Heq) as [-> ->]. done.
Qed.

Lemma query_line_tail (line addr : string) :
  query_line line addr →
  ∃ u w t, line = u +:+ String w (addr +:+ t) ∧ isspace w = true
           ∧ addr ≠ "" ∧ forall_chars digit_or_dot addr = true
           ∧ (t = "" ∨ t = newline).
Proof.
  intros (pre & a & b & ws & t & -> & _ & _ & Hne & Hws & Hane & Haddr & Ht).
  destruct (nonempty_snoc _ _ Hne Hws) as (ws0 & w & -> & Hw).
  exists (pre +:+ "query[" +:+ a +:+ "]" +:+ b +:+ "from" +:+ ws0), w, t.
  split; [|done].
  by rewrite !append_assoc.
Qed.

Lemma query_line_unique (line addr addr' : string) :
  query_line line addr → query_line line addr' → addr = addr'.
Proof.
  intros (u & w & t & -> & Hw & Hne & Hd & Ht)%query_line_tail
         (u' & w' & t' & Heq & Hw' & Hne' & Hd' & Ht')%query_line_tail.
  pose proof (forall_chars_impl _ _ _ digit_or_dot_not_space Hd) as Hg.
  pose proof (forall_chars_impl _ _ _ digit_or_dot_not_space Hd') as Hg'.
  assert (Hsnoc : ∀ x y : string,
    x +:+ String w (y +:+ newline) = (x +:+ String w y) +:+ newline).
  { intros x y. by rewrite append_assoc. }
  assert (Hsnoc' : ∀ x y : string,
    x +:+ String w' (y +:+ newline) = (x +:+ String w' y) +:+ newline).
  { intros x y. by rewrite append_assoc. }
  destruct Ht as [-> | ->], Ht' as [-> | ->].
  - rewrite !append_empty_r in Heq.
    by destruct (token_unique _ _ _ _ _ _ Hw Hw' Hg Hg' Heq).
  - rewrite append_empty_r, Hsnoc' in Heq.
    apply token_unique in Heq as [_ ->]; done.
  - rewrite append_empty_r, Hsnoc in Heq. symmetry in Heq.
    apply token_unique in Heq as [_ ->]; done.
  - rewrite Hsnoc, Hsnoc' in Heq.
    apply token_unique in Heq as [Heq _]; [|done..].
    by destruct (token_unique _ _ _ _ _ _ Hw Hw' Hg Hg' Heq).
Qed.

(** A successful search delivers a decomposition of the line, and group 1
    is its trailing token. *)
Lemma re_search_query_inv (line : string) (m : Match) :
  re_search query_pattern line = Some m →
  ∃ pre a b ws addr t,
    line = pre +:+ "query[" +:+ a +:+ "]" +:+ b +:+ "from" +:+ ws +:+ addr +:+ t
    ∧ forall_chars dot a = true
    ∧ forall_chars dot b = true
    ∧ ws ≠ "" ∧ forall_chars isspace ws = true
    ∧ addr ≠ "" ∧ forall_chars digit_or_dot addr = true
    ∧ (t = "" ∨ t = newline)
    ∧ start1 m
      = String.length (pre +:+ "query[" +:+ a +:+ "]" +:+ b +:+ "from" +:+ ws)
    ∧ end1 m = start1 m + String.length addr.
Proof.
  unfold re_search, query_pattern.
  intros (pre & suf & -> & Hacc)%search_from_sound.
  repeat match goal with
         | H : accepts (_ :: _) _ _ _ _ _ |- _ => inversion H; subst; clear H
         | H : accepts [] _ _ _ _ _ |- _ => inversion H; subst; clear H
         end.
  match goal with
  | Ha : forall_chars dot ?a = true, Hb : forall_chars dot ?b = true,
    Hw : forall_chars isspace ?ws = true,
    Hd : forall_chars digit_or_dot ?g = true, He : at_end ?t = true |- _ =>
      exists pre, a, b, ws, g, t
  end.
  repeat split; try done.
  - match goal with He : at_end ?t = true |- _ =>
      destruct t as [|n [|? ?]]; simpl in He; [by left| |done];
      right; apply Nat.eqb_eq in He; unfold newline;
      by rewrite <- He, ascii_nat_embedding
    end.
  - cbn [start1]. rewrite !length_append. simpl. lia.
Qed.

Lemma group1_query (line : string) (m : Match) :
  re_search query_pattern line = Some m →
  query_line line (group1 line m).
Proof.
  intros (pre & a & b & ws & addr & t & Hl & Ha & Hb & Hne & Hws & Hane
          & Haddr & Ht & Hs & He)%re_search_query_inv.
  assert (group1 line m = addr) as ->.
  { unfold group1. rewrite He, Hs, Nat.add_sub', Hl.
    replace (pre +:+ "query[" +:+ a +:+ "]" +:+ b +:+ "from" +:+ ws +:+ addr +:+ t)
      with ((pre +:+ "query[" +:+ a +:+ "]" +:+ b +:+ "from" +:+ ws) +:+ addr +:+ t)
      by (by rewrite !append_assoc).
    apply substring_middle. }
  by exists pre, a, b, ws, t.
Qed.

Lemma re_search_query_complete (line addr : string) :
  query_line line addr → is_Some (re_search query_pattern line).
Proof.
  intros (pre & a & b & ws & t & -> & Ha & Hb & Hne & Hws & Hane & Haddr & Ht).
  unfold re_search, query_pattern.
  eapply search_from_complete.
  apply acc_lit, acc_lazy; [done|].
  apply acc_lit, acc_lazy; [done|].
  apply acc_lit, acc_plus; [done..|].
  apply acc_open, acc_plus; [done..|].
  apply acc_close, acc_end; [by destruct Ht as [-> | ->]|].
  apply acc_nil.
Qed.

(* ================================================================== *)
(** * The line classifier *)

Lemma parse_log_line_match (self : PiHoleStreamer) (line : string) (m : Match) :
  re_search query_pattern line = Some m →
  parse_log_line self line
  = (Some (slice_to line (Z.of_nat (start1 m) - 6), group1 line m, false),
     set_last_query_ip self (Some (group1 line m))).
Proof. intros Hm. unfold parse_log_line. by rewrite Hm. Qed.

Lemma parse_log_line_no_match (self : PiHoleStreamer) (line : string) :
  re_search query_pattern line = None →
  snd (parse_log_line self line) = self.
Proof.
  intros Hm. unfold parse_log_line. rewrite Hm.
  destruct (is_block_line line); [|done].
  destruct (last_query_ip self) as [last|]; [|done].
  by destruct (truthy last).
Qed.

Lemma parse_log_line_query_inv (self : PiHoleStreamer) (line d ip : string) :
  fst (parse_log_line self line) = Some (d, ip, false) →
  query_line line ip
  ∧ snd (parse_log_line self line) = set_last_query_ip self (Some ip).
Proof.
  unfold parse_log_line.
  destruct (re_search query_pattern line) as [m|] eqn:Hm; simpl.
  - intros [= _ <-]. split; [by apply group1_query | done].
  - destruct (is_block_line line); [|done].
    destruct (last_query_ip self) as [last|]; [|done].
    by destruct (truthy last).
Qed.

Lemma query_line_truthy (line addr : string) :
  query_line line addr → truthy addr = true.
Proof.
  intros (_ & _ & _ & _ & _ & _ & _ & _ & _ & _ & Hne & _).
  by destruct addr.
Qed.

Lemma parse_log_line_block (self : PiHoleStreamer) (line last : string) :
  re_search query_pattern line = None →
  is_block_line line = true →
  last_query_ip self = Some last →
  truthy last = true →
  parse_log_line self line = (Some (line, last, true), self).
Proof.
  intros Hm Hb Hl Ht. unfold parse_log_line. by rewrite Hm, Hb, Hl, Ht.
Qed.

Lemma parse_all_no_match (self : PiHoleStreamer) (lines : list string) :
  Forall (λ l, re_search query_pattern l = None) lines →
  snd (parse_all self lines) = self.
Proof.
  induction 1 as [|line lines Hm _ IH]; simpl; [done|].
  pose proof (parse_log_line_no_match self line Hm) as Hs.
  destruct (parse_log_line self line) as [r self1]. simpl in Hs. subst self1.
  by destruct (parse_all self lines).
Qed.

(** C1.  A line of the form [... query[...] ... from <addr>] is classified
    as a query (third component [false]) whose address is the trailing
    token [addr], and the streamer's [last_query_ip] becomes [addr]. *)
Theorem query_line_classified (self : PiHoleStreamer) (line addr : string) :
  query_line line addr →
  ∃ description,
    parse_log_line self line
    = (Some (description, addr, false), set_last_query_ip self (Some addr))
    ∧ last_query_ip (snd (parse_log_line self line)) = Some addr.
Proof.
  intros Hq.
  destruct (re_search_query_complete _ _ Hq) as [m Hm].
  rewrite (parse_log_line_match self _ _ Hm).
  rewrite (query_line_unique _ _ _ (group1_query _ _ Hm) Hq).
  by eexists.
Qed.

Lemma query_line_classified_witness :
  ∃ description,
    parse_log_line (__init__ "pihole1" "pi" Colors.CYAN)
      "Oct  4 14:18:46: query[A] example.com from 192.168.1.100"
    = (Some (description, "192.168.1.100", false),
       set_last_query_ip (__init__ "pihole1" "pi" Colors.CYAN)
         (Some "192.168.1.100"))
    ∧ last_query_ip
        (snd (parse_log_line (__init__ "pihole1" "pi" Colors.CYAN)
                "Oct  4 14:18:46: query[A] example.com from 192.168.1.100"))
      = Some "192.168.1.100".
Proof.
  apply (query_line_classified (__init__ "pihole1" "pi" Colors.CYAN)
           "Oct  4 14:18:46: query[A] example.com from 192.168.1.100"
           "192.168.1.100").
  exists "Oct  4 14:18:46: ", "A", " example.com ", " ", "".
  vm_compute. repeat split; (discriminate || by left).
Defined.

(** C2 as stated fails here.  The query pattern is tried first, so a line
    carrying a block phrase that also matches it is a query: it is
    classified with its own address, not as a block of the earlier query
    from 1.1.1.1. *)
Lemma block_phrase_in_query_line :
  let self :=
    snd (parse_log_line (__init__ "pihole1" "pi" Colors.CYAN)
           "query[A] example.com from 1.1.1.1") in
  let line := "query[A] gravity blocked from 2.2.2.2" in
  last_query_ip self = Some "1.1.1.1"
  ∧ is_block_line line = true
  ∧ fst (parse_log_line self line)
    = Some ("query[A] gravity blocked", "2.2.2.2", false)
  ∧ fst (parse_log_line self line) ≠ Some (line, "1.1.1.1", true).
Proof. vm_compute. repeat split; discriminate. Qed.

(** C2, amended.  After a query with address [addr], and any number of
    lines in between that do not match the query pattern, a block/deny
    line that does not itself match the query pattern is classified as a
    block with that same address. *)
Theorem block_line_after_query (self : PiHoleStreamer)
    (q description addr : string) (between : list string) (line : string) :
  fst (parse_log_line self q) = Some (description, addr, false) →
  Forall (λ l, re_search query_pattern l = None) between →
  is_block_line line = true →
  re_search query_pattern line = None →
  fst (parse_log_line
         (snd (parse_all (snd (parse_log_line self q)) between)) line)
  = Some (line, addr, true).
Proof.
  intros [Hq Hs]%parse_log_line_query_inv Hbetween Hb Hm.
  rewrite (parse_all_no_match _ _ Hbetween), Hs.
  rewrite (parse_log_line_block _ line addr); try done.
  by apply (query_line_truthy q).
Qed.

Lemma block_line_after_query_witness :
  fst (parse_log_line
         (snd (parse_all
                 (snd (parse_log_line (__init__ "pihole1" "pi" Colors.CYAN)
                         "Oct  4 14:18:46: query[A] ads.example.com from 192.168.1.100"))
                 ["Oct  4 14:18:46: forwarded ads.example.com to 1.1.1.1";
                  "Oct  4 14:18:46: cached ads.example.com is <CNAME>"]))
         "Oct  4 14:18:47: gravity blocked ads.example.com is 0.0.0.0")
  = Some ("Oct  4 14:18:47: gravity blocked ads.example.com is 0.0.0.0",
          "192.168.1.100", true).
Proof.
  apply (block_line_after_query (__init__ "pihole1" "pi" Colors.CYAN)
           "Oct  4 14:18:46: query[A] ads.example.com from 192.168.1.100"
           "Oct  4 14:18:46: query[A] ads.example.com").
  - vm_compute. reflexivity.
  - repeat constructor.
  - vm_compute. reflexivity.
  - vm_compute. reflexivity.
Defined.

(** C3 as stated fails here.  A line carrying a block phrase that matches
    the query pattern is not dropped on a fresh streamer: it yields a query
    and sets the state. *)
Lemma orphan_block_phrase_in_query_line :
  let self := __init__ "pihole1" "pi" Colors.CYAN in
  let line := "query[A] exactly denied from 10.0.0.9" in
  last_query_ip self = None
  ∧ is_block_line line = true
  ∧ fst (parse_log_line self line)
    = Some ("query[A] exactly denied", "10.0.0.9", false)
  ∧ last_query_ip (snd (parse_log_line self line)) = Some "10.0.0.9".
Proof. vm_compute. repeat split. Qed.

(** C3, amended.  While [last_query_ip] is unset, block/deny lines that do
    not match the query pattern yield no event and leave the streamer as it
    was, however many of them are classified; [parse_log_line] is a total
    function, so nothing is raised. *)
Theorem orphan_block_lines_dropped (self : PiHoleStreamer)
    (lines : list string) :
  last_query_ip self = None →
  Forall (λ l, is_block_line l = true ∧ re_search query_pattern l = None)
         lines →
  parse_all self lines = (map (λ _, None) lines, self).
Proof.
  intros Hnone. induction 1 as [|line lines [Hb Hm] _ IH]; simpl; [done|].
  unfold parse_log_line. rewrite Hm, Hb, Hnone. by rewrite IH.
Qed.

Lemma orphan_block_lines_dropped_witness :
  parse_all (__init__ "pihole1" "pi" Colors.CYAN)
    ["Oct  4 14:18:47: gravity blocked ads.example.com is 0.0.0.0";
     "Oct  4 14:18:48: Exactly Denied tracker.example.com is NXDOMAIN"]
  = ([None; None], __init__ "pihole1" "pi" Colors.CYAN).
Proof.
  apply (orphan_block_lines_dropped (__init__ "pihole1" "pi" Colors.CYAN)
           ["Oct  4 14:18:47: gravity blocked ads.example.com is 0.0.0.0";
            "Oct  4 14:18:48: Exactly Denied tracker.example.com is NXDOMAIN"]).
  - reflexivity.
  - repeat constructor; vm_compute; reflexivity.
Defined.

(** C9 as stated fails here.  The trailing token is only required to
    consist of digits and dots. *)
Lemma malformed_address_accepted :
  fst (parse_log_line (__init__ "pihole1" "pi" Colors.CYAN)
         "Oct  4 14:18:46: query[A] example.com from ..")
  = Some ("Oct  4 14:18:46: query[A] example.com", "..", false)
  ∧ dotted_decimal ".." = false
  ∧ dotted_decimal "192.168.1.100" = true.
Proof. vm_compute. repeat split. Qed.

Example address_in_mid_description :
  fst (parse_log_line (__init__ "pihole1" "pi" Colors.CYAN)
         "Oct  4 14:18:46: query[A] from 192.168.1.100 example.com")
  = None.
Proof. vm_compute. reflexivity. Qed.

(** C9, amended.  A query is returned only for a line that ends, up to one
    final line feed, in [from], white space and a non-empty token of digits
    and dots, after a [query[...]] marker; that token is the address. *)
Theorem query_only_if_anchored (self self' : PiHoleStreamer)
    (line description ip : string) :
  parse_log_line self line = (Some (description, ip, false), self') →
  ∃ pre a b ws t,
    line = pre +:+ "query[" +:+ a +:+ "]" +:+ b +:+ "from" +:+ ws +:+ ip +:+ t
    ∧ ws ≠ "" ∧ forall_chars isspace ws = true
    ∧ ip ≠ "" ∧ forall_chars digit_or_dot ip = true
    ∧ (t = "" ∨ t = newline).
Proof.
  intros Hp.
  destruct (parse_log_line_query_inv self line description ip) as [Hq _].
  { by rewrite Hp. }
  destruct Hq as (pre & a & b & ws & t & ? & ? & ? & ? & ? & ? & ? & ?).
  by exists pre, a, b, ws, t.
Qed.

Lemma query_only_if_anchored_witness :
  ∃ pre a b ws t,
    "query[A] example.com from 192.168.1.100"
    = pre +:+ "query[" +:+ a +:+ "]" +:+ b +:+ "from" +:+ ws
      +:+ "192.168.1.100" +:+ t
    ∧ ws ≠ "" ∧ forall_chars isspace ws = true
    ∧ "192.168.1.100" ≠ ""
    ∧ forall_chars digit_or_dot "192.168.1.100" = true
    ∧ (t = "" ∨ t = newline).
Proof.
  apply (query_only_if_anchored (__init__ "pihole1" "pi" Colors.CYAN)
           (set_last_query_ip (__init__ "pihole1" "pi" Colors.CYAN)
              (Some "192.168.1.100"))
           "query[A] example.com from 192.168.1.100"
           "query[A] example.com" "192.168.1.100").
  vm_compute. reflexivity.
Defined.

(** C10 as stated fails here.  A line carrying a block phrase that matches
    the query pattern replaces the remembered address. *)
Lemma block_phrase_line_updates_state :
  let self :=
    snd (parse_log_line (__init__ "pihole1" "pi" Colors.CYAN)
           "query[A] example.com from 1.1.1.1") in
  let line := "query[AAAA] exactly blocked from 3.3.3.3" in
  is_block_line line = true
  ∧ last_query_ip self = Some "1.1.1.1"
  ∧ last_query_ip (snd (parse_log_line self line)) = Some "3.3.3.3".
Proof. vm_compute. repeat split. Qed.

(** C10, amended.  Classifying block/deny lines that do not match the
    query pattern leaves the streamer, and so [last_query_ip], untouched;
    every line of a run of such lines after a query with address [addr] is
    classified as a block with address [addr]. *)
Theorem block_run_after_query (self0 self : PiHoleStreamer)
    (q description addr : string) (run : list string) :
  Forall (λ l, is_block_line l = true ∧ re_search query_pattern l = None)
         run →
  fst (parse_log_line self q) = Some (description, addr, false) →
  snd (parse_all self0 run) = self0
  ∧ parse_all (snd (parse_log_line self q)) run
    = (map (λ l, Some (l, addr, true)) run, snd (parse_log_line self q)).
Proof.
  intros Hrun [Hq Hs]%parse_log_line_query_inv. split.
  - apply parse_all_no_match. eapply Forall_impl; [done|]. by intros ? [_ ?].
  - rewrite Hs. induction Hrun as [|line run [Hb Hm] _ IH]; simpl; [done|].
    rewrite (parse_log_line_block _ line addr); try done.
    + by rewrite IH.
    + by apply (query_line_truthy q).
Qed.

Lemma block_run_after_query_witness :
  snd (parse_all (__init__ "pihole2" "pi" Colors.MAGENTA)
         ["gravity blocked ads.example.com is 0.0.0.0";
          "gravity blocked ads.example.com is ::"])
  = __init__ "pihole2" "pi" Colors.MAGENTA
  ∧ parse_all
      (snd (parse_log_line (__init__ "pihole1" "pi" Colors.CYAN)
              "query[A] ads.example.com from 192.168.1.100"))
      ["gravity blocked ads.example.com is 0.0.0.0";
       "gravity blocked ads.example.com is ::"]
    = (map (λ l, Some (l, "192.168.1.100", true))
         ["gravity blocked ads.example.com is 0.0.0.0";
          "gravity blocked ads.example.com is ::"],
       snd (parse_log_line (__init__ "pihole1" "pi" Colors.CYAN)
              "query[A] ads.example.com from 192.168.1.100")).
Proof.
  apply (block_run_after_query (__init__ "pihole2" "pi" Colors.MAGENTA)
           (__init__ "pihole1" "pi" Colors.CYAN)
           "query[A] ads.example.com from 192.168.1.100"
           "query[A] ads.example.com" "192.168.1.100").
  - repeat constructor; vm_compute; reflexivity.
  - vm_compute. reflexivity.
Defined.

(* ================================================================== *)
(** * The resolver and the streaming loop *)

Lemma parse_log_line_dns_cache (self : PiHoleStreamer) (line : string) :
  dns_cache (snd (parse_log_line self line)) = dns_cache self.
Proof.
  unfold parse_log_line.
  destruct (re_search query_pattern line); [done|].
  destruct (is_block_line line); [|done].
  destruct (last_query_ip self) as [last|]; [|done].
  by destruct (truthy last).
Qed.

Lemma parse_scenario_query (self : PiHoleStreamer) :
  parse_log_line self scenario_query
  = (Some ("Oct  4 14:18:46: query[A] example.com", "192.168.1.100", false),
     set_last_query_ip self (Some "192.168.1.100")).
Proof.
  by rewrite (parse_log_line_match self scenario_query (mkMatch 43 56)).
Qed.

Lemma parse_scenario_block (self : PiHoleStreamer) (last : string) :
  last_query_ip self = Some last →
  truthy last = true →
  parse_log_line self scenario_block = (Some (scenario_block, last, true), self).
Proof. intros Hl Ht. by apply parse_log_line_block. Qed.

Lemma strip_truthy (raw line : string) :
  strip raw = line → truthy line = true → truthy raw = true.
Proof. intros <-. by destruct raw. Qed.

Section StreamingProperties.

Variable gethostbyaddr : list string → string → result string.
Variable strftime_now : nat → string.


Lemma resolve_hostname_covers (self self' : PiHoleStreamer) (w w' : World)
    (ip : string) (r : result string) :
  cache_covers self w →
  resolve_hostname gethostbyaddr self w ip = (r, self', w') →
  NoDup (lookups w')
  ∧ (∀ name, r = Return name → cache_covers self' w').
Proof.
  intros [Hnd Hcov]. unfold resolve_hostname.
  destruct (dns_cache self !! ip) as [cached|] eqn:Hc.
  { intros [= <- <- <-]. by repeat split. }
  assert (Hfresh : ip ∉ lookups w).
  { intros [v Hv]%Hcov. congruence. }
  assert (Hnd' : NoDup (lookups w ++ [ip])).
  { apply NoDup_app. repeat split; [done| |apply NoDup_singleton].
    intros x Hx ->%list_elem_of_singleton. done. }
  assert (Hins : ∀ v, cache_covers
            (set_dns_cache self (<[ip:=v]> (dns_cache self))) (log_lookup w ip)).
  { intros v. split; [done|]. simpl.
    intros x [Hx | ->%list_elem_of_singleton]%elem_of_app.
    - destruct (decide (ip = x)) as [->|Hne].
      + rewrite lookup_insert_eq. by eexists.
      + rewrite lookup_insert_ne by done. by apply Hcov.
    - rewrite lookup_insert_eq. by eexists. }
  destruct (gethostbyaddr (lookups w) ip) as [name|e].
  - intros [= <- <- <-]. split; [done|]. by intros ? _.
  - destruct (caught e).
    + intros [= <- <- <-]. split; [done|]. by intros ? _.
    + intros [= <- <- <-]. by split.
Qed.

Lemma handle_line_covers (show_blocked_only : bool) (filter_host : option string)
    (verbose : bool) (self self' : PiHoleStreamer) (w w' : World)
    (queue queue' : list string) (line : string) (r : result unit) :
  cache_covers self w →
  handle_line gethostbyaddr strftime_now show_blocked_only filter_host
    verbose self w queue line
  = (r, self', w', queue') →
  NoDup (lookups w') ∧ (∀ u, r = Return u → cache_covers self' w').
Proof.
  intros Hcov. unfold handle_line.
  pose proof (parse_log_line_dns_cache self line) as Hd.
  destruct (parse_log_line self line) as [parsed self1]. simpl in Hd.
  assert (Hcov1 : cache_covers self1 w).
  { destruct Hcov as [Hnd Hc]. split; [done|]. by rewrite Hd. }
  destruct parsed as [[[query_part ip] is_blocked]|].
  - destruct (show_blocked_only && negb is_blocked).
    { intros [= <- <- <- <-]. split; [apply Hcov1 | by intros]. }
    destruct (resolve_hostname gethostbyaddr self1 w ip) as [[r2 self2] w2] eqn:Hr.
    destruct (resolve_hostname_covers _ _ _ _ _ _ Hcov1 Hr) as [Hnd2 Hc2].
    destruct r2 as [resolved|e].
    + pose proof (Hc2 resolved eq_refl) as Hcov2.
      destruct (host_filter_rejects filter_host resolved ip);
        intros [= <- <- <- <-]; (split; [done | by intros]).
    + intros [= <- <- <- <-]. by split.
  - destruct (verbose && _ && _); intros [= <- <- <- <-];
      (split; [apply Hcov1 | by intros]).
Qed.

Lemma stream_loop_covers (show_blocked_only : bool) (filter_host : option string)
    (verbose : bool) (stdout : list string) (self : PiHoleStreamer)
    (w : World) (queue : list string) :
  cache_covers self w →
  NoDup (lookups (snd (fst
    (stream_loop gethostbyaddr strftime_now show_blocked_only filter_host
       verbose stdout self w queue)))).
Proof.
  revert self w queue.
  induction stdout as [|raw rest IH]; intros self w queue Hcov; simpl.
  { apply Hcov. }
  destruct (negb (truthy raw)); [apply Hcov|].
  destruct (negb (truthy (strip raw))); [by apply IH|].
  destruct (handle_line gethostbyaddr strftime_now _ _ _ self w queue (strip raw))
    as [[[r self'] w'] queue'] eqn:Hh.
  destruct (handle_line_covers _ _ _ _ _ _ _ _ _ _ _ Hcov Hh) as [Hnd Hc].
  destruct r as [u|e]; [|done].
  apply IH. by apply (Hc u).
Qed.

(** C6, amended.  When a call of [resolve_hostname] has returned a name
    (the address was cached, the lookup succeeded, or it failed with
    [socket.herror] or [socket.gaierror]), a second call on the resulting
    streamer returns the same name and leaves the record of lookups as it
    was: the external lookup is not invoked again.  Over a whole run of
    [stream_logs] on a streamer with a fresh cache, no address is looked up
    twice.  When the lookup raises any other exception, the exception leaves
    [resolve_hostname], nothing is cached, and a second call looks the
    address up again. *)
Theorem resolve_hostname_cached :
  (∀ (self self' : PiHoleStreamer) (w w' : World) (ip name : string),
     resolve_hostname gethostbyaddr self w ip = (Return name, self', w') →
     resolve_hostname gethostbyaddr self' w' ip = (Return name, self', w'))
  ∧ (∀ (self : PiHoleStreamer) (stdout : list string) (w : World)
       (queue : list string) (show_blocked_only : bool)
       (filter_host : option string) (verbose : bool),
       dns_cache self = ∅ → lookups w = [] →
       NoDup (lookups (snd (fst
         (stream_logs gethostbyaddr strftime_now self stdout w queue
            show_blocked_only filter_host verbose)))))
  ∧ (∀ (self : PiHoleStreamer) (w : World) (ip : string) (e : exn),
       dns_cache self !! ip = None →
       gethostbyaddr (lookups w) ip = Raise e →
       caught e = false →
       resolve_hostname gethostbyaddr self w ip
       = (Raise e, self, log_lookup w ip)
       ∧ lookups (snd (resolve_hostname gethostbyaddr self
                         (log_lookup w ip) ip))
         = lookups w ++ [ip; ip]).
Proof.
  split; [|split].
  - intros self self' w w' ip name. unfold resolve_hostname.
    destruct (dns_cache self !! ip) as [cached|] eqn:Hc.
    { intros [= <- <- <-]. by rewrite Hc. }
    destruct (gethostbyaddr (lookups w) ip) as [found|e].
    + intros [= <- <- <-]. simpl. by rewrite lookup_insert_eq.
    + destruct (caught e); [|done].
      intros [= <- <- <-]. simpl. by rewrite lookup_insert_eq.
  - intros self stdout w queue show_blocked_only filter_host verbose Hc Hw.
    unfold stream_logs. destruct (client self).
    + apply stream_loop_covers. split.
      * rewrite Hw. apply NoDup_nil_2.
      * rewrite Hw. by intros ? ?%elem_of_nil.
    + simpl. rewrite Hw. apply NoDup_nil_2.
  - intros self w ip e Hc Hl He. unfold resolve_hostname.
    rewrite Hc, Hl, He. split; [done|]. simpl.
    destruct (gethostbyaddr (lookups w ++ [ip]) ip) as [name|e2];
      [|destruct (caught e2)]; simpl; by rewrite <- app_assoc.
Qed.

(** C7, amended.  When the reverse lookup raises [socket.herror] or
    [socket.gaierror], [resolve_hostname] caches the address as its own
    name and returns the address, so neither exception leaves it. *)
Theorem lookup_error_cached (self : PiHoleStreamer) (w : World)
    (ip : string) (e : exn) :
  e = socket_herror ∨ e = socket_gaierror →
  dns_cache self !! ip = None →
  gethostbyaddr (lookups w) ip = Raise e →
  resolve_hostname gethostbyaddr self w ip
  = (Return ip, set_dns_cache self (<[ip:=ip]> (dns_cache self)),
     log_lookup w ip)
  ∧ dns_cache (set_dns_cache self (<[ip:=ip]> (dns_cache self))) !! ip
    = Some ip.
Proof.
  intros He Hc Hl. unfold resolve_hostname. rewrite Hc, Hl.
  split.
  - by destruct He as [-> | ->].
  - simpl. apply lookup_insert_eq.
Qed.

(** C8.  With a host filter [f] configured, an event that reaches the
    filter (it is not a query suppressed by the blocked-only mode, and its
    address resolved to [resolved]) is put on the queue if [f], lowered, is
    a substring of the lowered resolved name or [f] equals the raw
    address; otherwise the queue stays as it was. *)
Theorem host_filter_keeps_iff (show_blocked_only verbose : bool) (f : string)
    (self self1 self2 : PiHoleStreamer) (w w2 : World) (queue : list string)
    (line query_part ip resolved : string) (is_blocked : bool) :
  truthy f = true →
  parse_log_line self line = (Some (query_part, ip, is_blocked), self1) →
  show_blocked_only && negb is_blocked = false →
  resolve_hostname gethostbyaddr self1 w ip = (Return resolved, self2, w2) →
  let formatted :=
    if is_blocked
    then format_blocked self2 (strftime_now (clock w2))
           (host_display resolved ip) query_part
    else format_query self2 (strftime_now (clock w2))
           (host_display resolved ip) query_part in
  let queue' :=
    snd (handle_line gethostbyaddr strftime_now show_blocked_only (Some f)
           verbose self w queue line) in
  (str_in (lower f) (lower resolved) = true ∨ f = ip →
   queue' = queue ++ [formatted])
  ∧ (¬ (str_in (lower f) (lower resolved) = true ∨ f = ip) →
     queue' = queue).
Proof.
  intros Hf Hp Hgate Hr formatted queue'. subst formatted queue'.
  unfold handle_line. rewrite Hp, Hgate, Hr.
  unfold host_filter_rejects. rewrite Hf. simpl.
  destruct (str_in (lower f) (lower resolved)) eqn:Hin; simpl.
  - split; [done|]. intros []. by left.
  - destruct (String.eqb_spec f ip) as [->|Hne]; simpl.
    + split; [done|]. intros []. by right.
    + split; [|done]. by intros [|].
Qed.

(** C4.  In blocked-only mode the two lines of the scenario put exactly one
    string on the queue, the formatted block; the query puts nothing on it
    but sets [last_query_ip], which the block then uses as its address. *)
Theorem blocked_only_scenario (host user col : string) (w : World)
    (verbose : bool) (raw_query raw_block name : string) :
  strip raw_query = scenario_query →
  strip raw_block = scenario_block →
  gethostbyaddr (lookups w) "192.168.1.100" = Return name →
  let self := connect (__init__ host user col) in
  stream_logs gethostbyaddr strftime_now self [raw_query] w [] true None
    verbose
  = (Return tt, set_last_query_ip self (Some "192.168.1.100"), w, [])
  ∧ stream_logs gethostbyaddr strftime_now self [raw_query; raw_block] w []
      true None verbose
    = (Return tt,
       set_dns_cache (set_last_query_ip self (Some "192.168.1.100"))
         {["192.168.1.100" := name]},
       tick (log_lookup w "192.168.1.100"),
       [format_blocked self (strftime_now (clock w))
          (host_display name "192.168.1.100") scenario_block]).
Proof.
  intros Hq Hb Hl self.
  pose proof (strip_truthy _ _ Hq eq_refl) as Htq.
  pose proof (strip_truthy _ _ Hb eq_refl) as Htb.
  unfold stream_logs. simpl client. cbv iota.
  unfold stream_loop.
  rewrite Htq, Htb, Hq, Hb. simpl negb. cbv iota.
  unfold handle_line.
  rewrite parse_scenario_query. simpl andb. cbv iota.
  split; [done|].
  rewrite (parse_scenario_block _ "192.168.1.100") by done.
  simpl andb. cbv iota.
  unfold resolve_hostname. simpl dns_cache.
  rewrite lookup_empty, Hl. simpl host_filter_rejects. cbv iota.
  rewrite insert_empty. done.
Qed.

(** C5, amended.  With no filters and a resolver that maps 192.168.1.100 to
    laptop.local, the query line of the scenario puts one plainly styled
    string on the queue, showing [laptop.local (192.168.1.100)] and the
    description [Oct  4 14:18:46: query[A] example.com] (everything before
    [ from 192.168.1.100], the log's own time stamp included); the block
    line then puts one block-styled string on it, with the same address and
    no second lookup. *)
Theorem end_to_end_scenario (host user col : string) (w : World)
    (verbose : bool) (raw_query raw_block : string) :
  strip raw_query = scenario_query →
  strip raw_block = scenario_block →
  gethostbyaddr (lookups w) "192.168.1.100" = Return "laptop.local" →
  let self := connect (__init__ host user col) in
  let self' :=
    set_dns_cache (set_last_query_ip self (Some "192.168.1.100"))
      {["192.168.1.100" := "laptop.local"]} in
  let query_event :=
    format_query self (strftime_now (clock w))
      "laptop.local (192.168.1.100)" "Oct  4 14:18:46: query[A] example.com" in
  let block_event :=
    format_blocked self (strftime_now (S (clock w)))
      "laptop.local (192.168.1.100)" scenario_block in
  stream_logs gethostbyaddr strftime_now self [raw_query] w [] false None
    verbose
  = (Return tt, self', tick (log_lookup w "192.168.1.100"), [query_event])
  ∧ stream_logs gethostbyaddr strftime_now self [raw_query; raw_block] w []
      false None verbose
    = (Return tt, self', tick (tick (log_lookup w "192.168.1.100")),
       [query_event; block_event]).
Proof.
  intros Hq Hb Hl self self' query_event block_event.
  pose proof (strip_truthy _ _ Hq eq_refl) as Htq.
  pose proof (strip_truthy _ _ Hb eq_refl) as Htb.
  unfold stream_logs. simpl client. cbv iota.
  unfold stream_loop.
  rewrite Htq, Htb, Hq, Hb. simpl negb. cbv iota.
  unfold handle_line.
  rewrite parse_scenario_query. simpl andb. cbv iota.
  unfold resolve_hostname. simpl dns_cache.
  rewrite lookup_empty, Hl. simpl host_filter_rejects. cbv iota.
  rewrite insert_empty.
  split; [done|].
  rewrite (parse_scenario_block _ "192.168.1.100") by done.
  cbv iota. simpl dns_cache. rewrite lookup_singleton_eq. done.
Qed.

End StreamingProperties.

(** ** Concrete runs *)

Lemma resolve_hostname_cached_witness :
  let self :=
    set_dns_cache (connect (__init__ "pihole1" "pi" Colors.CYAN))
      (<["192.168.1.100" := "laptop.local"]> ∅) in
  let w := log_lookup (mkWorld [] 0) "192.168.1.100" in
  resolve_hostname mock_lookup self w "192.168.1.100"
  = (Return "laptop.local", self, w).
Proof.
  apply (proj1 (resolve_hostname_cached mock_lookup mock_clock)
           (connect (__init__ "pihole1" "pi" Colors.CYAN)) _
           (mkWorld [] 0) _ "192.168.1.100" "laptop.local").
  vm_compute. reflexivity.
Defined.

(** C6 as stated fails here.  The lookup of an address with an empty label
    raises [UnicodeError]; nothing is cached, so a second call invokes the
    lookup a second time. *)
Lemma uncaught_failure_looked_up_again :
  let self := connect (__init__ "pihole1" "pi" Colors.CYAN) in
  resolve_hostname idna_lookup self (mkWorld [] 0) ".."
  = (Raise UnicodeError, self, mkWorld [".."] 0)
  ∧ dns_cache self !! ".." = None
  ∧ resolve_hostname idna_lookup self (mkWorld [".."] 0) ".."
    = (Raise UnicodeError, self, mkWorld [".."; ".."] 0).
Proof. vm_compute. repeat split. Qed.

(** C7 as stated fails here.  The reverse lookup of an address with an
    empty label fails with [UnicodeError], which the [except] clause does
    not name: the exception leaves [resolve_hostname], nothing is cached,
    and [stream_logs] ends with it. *)
Lemma unicode_error_propagates :
  let self := connect (__init__ "pihole1" "pi" Colors.CYAN) in
  resolve_hostname idna_lookup self (mkWorld [] 0) ".."
  = (Raise UnicodeError, self, mkWorld [".."] 0)
  ∧ dns_cache self !! ".." = None
  ∧ fst (fst (fst (stream_logs idna_lookup mock_clock self
                     ["query[A] example.com from .."] (mkWorld [] 0) []
                     false None false)))
    = Raise UnicodeError.
Proof. vm_compute. repeat split. Qed.

Lemma lookup_error_cached_witness :
  let self := connect (__init__ "pihole1" "pi" Colors.CYAN) in
  resolve_hostname idna_lookup self (mkWorld [] 0) "10.0.0.5"
  = (Return "10.0.0.5",
     set_dns_cache self (<["10.0.0.5" := "10.0.0.5"]> (dns_cache self)),
     log_lookup (mkWorld [] 0) "10.0.0.5")
  ∧ dns_cache
      (set_dns_cache self (<["10.0.0.5" := "10.0.0.5"]> (dns_cache self)))
    !! "10.0.0.5" = Some "10.0.0.5".
Proof.
  apply (lookup_error_cached idna_lookup
           (connect (__init__ "pihole1" "pi" Colors.CYAN)) (mkWorld [] 0)
           "10.0.0.5" socket_gaierror).
  - right. reflexivity.
  - vm_compute. reflexivity.
  - vm_compute. reflexivity.
Defined.

Lemma host_filter_keeps_iff_witness :
  let self := connect (__init__ "pihole1" "pi" Colors.CYAN) in
  let self2 :=
    set_dns_cache (set_last_query_ip self (Some "192.168.1.100"))
      (<["192.168.1.100" := "laptop.local"]> ∅) in
  let formatted :=
    format_query self2 (mock_clock 0)
      (host_display "laptop.local" "192.168.1.100")
      "Oct  4 14:18:46: query[A] example.com" in
  let queue' :=
    snd (handle_line mock_lookup mock_clock false (Some "LAPTOP") false self
           (mkWorld [] 0) [] scenario_query) in
  (str_in (lower "LAPTOP") (lower "laptop.local") = true
   ∨ "LAPTOP" = "192.168.1.100" → queue' = [] ++ [formatted])
  ∧ (¬ (str_in (lower "LAPTOP") (lower "laptop.local") = true
        ∨ "LAPTOP" = "192.168.1.100") → queue' = []).
Proof.
  apply (host_filter_keeps_iff mock_lookup mock_clock false false "LAPTOP"
           (connect (__init__ "pihole1" "pi" Colors.CYAN))
           (set_last_query_ip (connect (__init__ "pihole1" "pi" Colors.CYAN))
              (Some "192.168.1.100"))
           _ (mkWorld [] 0) (log_lookup (mkWorld [] 0) "192.168.1.100") []
           scenario_query "Oct  4 14:18:46: query[A] example.com"
           "192.168.1.100" "laptop.local" false).
  - vm_compute. reflexivity.
  - vm_compute. reflexivity.
  - reflexivity.
  - vm_compute. reflexivity.
Defined.

Lemma blocked_only_scenario_witness :
  let self := connect (__init__ "pihole1" "pi" Colors.CYAN) in
  let w := mkWorld [] 0 in
  stream_logs mock_lookup mock_clock self [scenario_query +:+ newline] w []
    true None false
  = (Return tt, set_last_query_ip self (Some "192.168.1.100"), w, [])
  ∧ stream_logs mock_lookup mock_clock self
      [scenario_query +:+ newline; scenario_block +:+ newline] w []
      true None false
    = (Return tt,
       set_dns_cache (set_last_query_ip self (Some "192.168.1.100"))
         {["192.168.1.100" := "laptop.local"]},
       tick (log_lookup w "192.168.1.100"),
       [format_blocked self (mock_clock (clock w))
          (host_display "laptop.local" "192.168.1.100") scenario_block]).
Proof.
  apply (blocked_only_scenario mock_lookup mock_clock "pihole1" "pi"
           Colors.CYAN (mkWorld [] 0) false (scenario_query +:+ newline)
           (scenario_block +:+ newline) "laptop.local").
  - vm_compute. reflexivity.
  - vm_compute. reflexivity.
  - vm_compute. reflexivity.
Defined.

(** C5 as stated fails here.  The description handed on for the scenario's
    query line starts with the log's own time stamp. *)
Lemma scenario_description_keeps_log_prefix :
  let self := connect (__init__ "pihole1" "pi" Colors.CYAN) in
  fst (parse_log_line self scenario_query)
  = Some ("Oct  4 14:18:46: query[A] example.com", "192.168.1.100", false)
  ∧ "Oct  4 14:18:46: query[A] example.com" ≠ "query[A] example.com"
  ∧ snd (stream_logs mock_lookup mock_clock self [scenario_query]
           (mkWorld [] 0) [] false None false)
    ≠ [format_query self (mock_clock 0) "laptop.local (192.168.1.100)"
         "query[A] example.com"].
Proof. vm_compute. repeat split; discriminate. Qed.

Lemma end_to_end_scenario_witness :
  let self := connect (__init__ "pihole1" "pi" Colors.CYAN) in
  let w := mkWorld [] 0 in
  let self' :=
    set_dns_cache (set_last_query_ip self (Some "192.168.1.100"))
      {["192.168.1.100" := "laptop.local"]} in
  let query_event :=
    format_query self (mock_clock (clock w))
      "laptop.local (192.168.1.100)" "Oct  4 14:18:46: query[A] example.com" in
  let block_event :=
    format_blocked self (mock_clock (S (clock w)))
      "laptop.local (192.168.1.100)" scenario_block in
  stream_logs mock_lookup mock_clock self [scenario_query +:+ newline] w []
    false None false
  = (Return tt, self', tick (log_lookup w "192.168.1.100"), [query_event])
  ∧ stream_logs mock_lookup mock_clock self
      [scenario_query +:+ newline; scenario_block +:+ newline] w []
      false None false
    = (Return tt, self', tick (tick (log_lookup w "192.168.1.100")),
       [query_event; block_event]).
Proof.
  apply (end_to_end_scenario mock_lookup mock_clock "pihole1" "pi"
           Colors.CYAN (mkWorld [] 0) false (scenario_query +:+ newline)
           (scenario_block +:+ newline)).
  - vm_compute. reflexivity.
  - vm_compute. reflexivity.
  - vm_compute. reflexivity.
Defined.

(* ================================================================== *)
(** * Further properties of the classifier *)

Lemma prefix_spec (sub s : string) :
  String.prefix sub s = true ↔ ∃ y, s = sub +:+ y.
Proof.
  revert s. induction sub as [|a sub IH]; intros [|b s]; simpl.
  - split; [intros _; by exists "" | done].
  - split; [intros _; by exists (String b s) | done].
  - split; [done | by intros [y [=]]].
  - destruct (ascii_dec a b) as [->|Hne].
    + rewrite IH. split; intros [y Hy]; exists y; congruence.
    + split; [done | intros [y [=]]; congruence].
Qed.

Lemma str_in_spec (sub s : string) :
  str_in sub s = true ↔ ∃ x y, s = x +:+ sub +:+ y.
Proof.
  induction s as [|a s IH]; cbn [str_in].
  - rewrite orb_false_r, prefix_spec. split.
    + intros [y Hy]. by exists "", y.
    + intros ([|b x] & y & Hxy); [by exists y | done].
  - rewrite orb_true_iff, prefix_spec, IH. split.
    + intros [[y Hy] | (x & y & ->)];
        [by exists "", y | by exists (String a x), y].
    + intros ([|b x] & y & Hxy); simpl in Hxy.
      * left. by exists y.
      * right. exists x, y. congruence.
Qed.

Lemma lower_append (x y : string) : lower (x +:+ y) = lower x +:+ lower y.
Proof. induction x as [|a x IH]; simpl; [done | by rewrite IH]. Qed.

Lemma lower_char_idemp (a : ascii) : lower_char (lower_char a) = lower_char a.
Proof. destruct a as [[] [] [] [] [] [] [] []]; vm_compute; reflexivity. Qed.

Lemma lower_idemp (s : string) : lower (lower s) = lower s.
Proof.
  induction s as [|a s IH]; simpl; [done|]. by rewrite lower_char_idemp, IH.
Qed.

Lemma split_at (n : nat) (s : string) :
  n ≤ String.length s → ∃ x y, s = x +:+ y ∧ String.length x = n.
Proof.
  revert s. induction n as [|n IH]; intros s Hn.
  - by exists "", s.
  - destruct s as [|a s]; simpl in Hn; [lia|].
    destruct (IH s) as (x & y & -> & Hx); [lia|].
    exists (String a x), y. simpl. by rewrite Hx.
Qed.

Lemma slice_to_prefix (x y : string) (k : Z) :
  k = Z.of_nat (String.length x) → slice_to (x +:+ y) k = x.
Proof.
  intros ->. unfold slice_to. rewrite length_append.
  destruct (Z.ltb_spec (Z.of_nat (String.length x)) 0); [lia|].
  replace (Z.to_nat _) with (String.length x) by lia.
  apply substring_prefix.
Qed.

(** The text after the last white-space character, and a final line feed,
    are determined by the string. *)
Lemma tail_unique (u u' g g' t t' : string) (w w' : ascii) :
  isspace w = true → isspace w' = true →
  g ≠ "" → forall_chars digit_or_dot g = true →
  g' ≠ "" → forall_chars digit_or_dot g' = true →
  t = "" ∨ t = newline → t' = "" ∨ t' = newline →
  u +:+ String w (g +:+ t) = u' +:+ String w' (g' +:+ t') →
  u = u' ∧ g = g' ∧ t = t'.
Proof.
  intros Hw Hw' Hne Hd Hne' Hd' Ht Ht' Heq.
  pose proof (forall_chars_impl _ _ _ digit_or_dot_not_space Hd) as Hg.
  pose proof (forall_chars_impl _ _ _ digit_or_dot_not_space Hd') as Hg'.
  assert (Hsnoc : ∀ (x y : string) (c : ascii),
    x +:+ String c (y +:+ newline) = (x +:+ String c y) +:+ newline).
  { intros x y c. by rewrite append_assoc. }
  destruct Ht as [-> | ->], Ht' as [-> | ->].
  - rewrite !append_empty_r in Heq.
    by destruct (token_unique _ _ _ _ _ _ Hw Hw' Hg Hg' Heq) as [-> ->].
  - rewrite append_empty_r, Hsnoc in Heq.
    apply token_unique in Heq as [_ ->]; done.
  - rewrite append_empty_r, Hsnoc in Heq. symmetry in Heq.
    apply token_unique in Heq as [_ ->]; done.
  - rewrite !Hsnoc in Heq.
    apply token_unique in Heq as [Heq _]; [|done..].
    by destruct (token_unique _ _ _ _ _ _ Hw Hw' Hg Hg' Heq) as [-> ->].
Qed.

(** Where group 1 starts, in terms of any reading of the line as
    [u], one white-space character, a token and an optional line feed. *)
Lemma re_search_query_span (line u g t : string) (w : ascii) (m : Match) :
  re_search query_pattern line = Some m →
  line = u +:+ String w (g +:+ t) →
  isspace w = true →
  g ≠ "" → forall_chars digit_or_dot g = true →
  t = "" ∨ t = newline →
  start1 m = S (String.length u) ∧ group1 line m = g ∧ 11 ≤ String.length u.
Proof.
  intros Hm Hl Hw Hne Hd Ht.
  pose proof (group1_query _ _ Hm) as Hq.
  destruct (re_search_query_inv _ _ Hm)
    as (pre & a & b & ws & addr & t0 & Hl0 & Ha & Hb & Hwne & Hws & Hane
        & Haddr & Ht0 & Hs & _).
  destruct (nonempty_snoc _ _ Hwne Hws) as (ws0 & w0 & -> & Hw0).
  assert (Hl1 : line
    = (pre +:+ "query[" +:+ a +:+ "]" +:+ b +:+ "from" +:+ ws0)
      +:+ String w0 (addr +:+ t0)).
  { rewrite Hl0. by rewrite !append_assoc. }
  rewrite Hl in Hl1.
  destruct (tail_unique _ _ _ _ _ _ _ _ Hw Hw0 Hne Hd Hane Haddr Ht Ht0 Hl1)
    as (-> & -> & ->).
  assert (group1 line m = addr) as ->.
  { apply (query_line_unique line); [done|].
    exists pre, a, b, (ws0 +:+ String w0 ""), t0. by repeat split. }
  split; [|split; [done|]].
  - rewrite Hs, !length_append. simpl. lia.
  - rewrite !length_append. simpl. lia.
Qed.

(** X1.  The description of a query is the line without its last
    characters: the address, a final line feed if there is one, and the six
    characters before the address.  The slice bound is never negative, and
    the description keeps at least six characters. *)
Theorem query_part_span (self self' : PiHoleStreamer)
    (line description ip : string) :
  parse_log_line self line = (Some (description, ip, false), self') →
  ∃ six t,
    line = description +:+ six +:+ ip +:+ t
    ∧ String.length six = 6
    ∧ (t = "" ∨ t = newline)
    ∧ 6 ≤ String.length description.
Proof.
  unfold parse_log_line.
  destruct (re_search query_pattern line) as [m|] eqn:Hm.
  - intros [= <- <- _].
    destruct (query_line_tail _ _ (group1_query _ _ Hm))
      as (u & w & t & Hl & Hw & Hne & Hd & Ht).
    destruct (re_search_query_span _ _ _ _ _ _ Hm Hl Hw Hne Hd Ht)
      as (Hs & _ & Hu).
    destruct (split_at (String.length u - 5) u) as (x & y & -> & Hx); [lia|].
    rewrite length_append in Hs, Hu, Hx.
    exists (y +:+ String w ""), t.
    assert (Hline : line = x +:+ (y +:+ String w "") +:+ group1 line m +:+ t).
    { rewrite Hl at 1. by rewrite !append_assoc. }
    split; [|split; [|split]].
    + rewrite Hline at 2.
      rewrite (slice_to_prefix x); [done | lia].
    + rewrite length_append. simpl. lia.
    + done.
    + rewrite Hline at 1.
      rewrite (slice_to_prefix x); lia.
  - destruct (is_block_line line); [|done].
    destruct (last_query_ip self) as [last|]; [|done].
    by destruct (truthy last).
Qed.

Lemma query_part_span_witness :
  ∃ six t,
    "query[A] example.com from  10.0.0.7"
    = "query[A] example.com " +:+ six +:+ "10.0.0.7" +:+ t
    ∧ String.length six = 6
    ∧ (t = "" ∨ t = newline)
    ∧ 6 ≤ String.length "query[A] example.com ".
Proof.
  apply (query_part_span (__init__ "pihole1" "pi" Colors.CYAN)
           (set_last_query_ip (__init__ "pihole1" "pi" Colors.CYAN)
              (Some "10.0.0.7"))
           "query[A] example.com from  10.0.0.7"
           "query[A] example.com " "10.0.0.7").
  vm_compute. reflexivity.
Defined.

(** X2.  When the address is preceded by exactly [ from ] (one blank on
    either side), the description is everything before it and the address
    is the token after it. *)
Theorem query_part_before_from (self : PiHoleStreamer)
    (pre a b addr : string) :
  forall_chars dot a = true →
  forall_chars dot b = true →
  addr ≠ "" →
  forall_chars digit_or_dot addr = true →
  parse_log_line self
    ((pre +:+ "query[" +:+ a +:+ "]" +:+ b) +:+ " from " +:+ addr)
  = (Some (pre +:+ "query[" +:+ a +:+ "]" +:+ b, addr, false),
     set_last_query_ip self (Some addr)).
Proof.
  intros Ha Hb Hne Hd.
  set (head := pre +:+ "query[" +:+ a +:+ "]" +:+ b).
  set (line := head +:+ " from " +:+ addr).
  assert (Hq : query_line line addr).
  { exists pre, a, (b +:+ " "), " ", "". repeat split; try done.
    - unfold line, head. rewrite !append_assoc, append_empty_r. done.
    - rewrite forall_chars_append, Hb. done.
    - by left. }
  destruct (re_search_query_complete _ _ Hq) as [m Hm].
  assert (Hl : line = (head +:+ " from") +:+ String " " (addr +:+ "")).
  { unfold line. rewrite !append_assoc, append_empty_r. done. }
  destruct (re_search_query_span _ _ _ _ _ _ Hm Hl eq_refl Hne Hd
              (or_introl eq_refl)) as (Hs & Hg & _).
  rewrite (parse_log_line_match self _ _ Hm), Hg.
  replace (slice_to line (Z.of_nat (start1 m) - 6)) with head; [done|].
  symmetry. unfold line. apply slice_to_prefix.
  rewrite Hs, length_append. simpl. lia.
Qed.

Lemma query_part_before_from_witness :
  parse_log_line (__init__ "pihole1" "pi" Colors.CYAN)
    (("Oct  4 14:18:46: " +:+ "query[" +:+ "A" +:+ "]" +:+ " example.com")
     +:+ " from " +:+ "192.168.1.100")
  = (Some ("Oct  4 14:18:46: " +:+ "query[" +:+ "A" +:+ "]" +:+ " example.com",
           "192.168.1.100", false),
     set_last_query_ip (__init__ "pihole1" "pi" Colors.CYAN)
       (Some "192.168.1.100")).
Proof.
  apply (query_part_before_from (__init__ "pihole1" "pi" Colors.CYAN)
           "Oct  4 14:18:46: " "A" " example.com" "192.168.1.100").
  - reflexivity.
  - reflexivity.
  - discriminate.
  - reflexivity.
Defined.

(** X3.  A block result is only ever produced from a remembered, non-empty
    address: its description is the whole line, its address the streamer's
    [last_query_ip], the line carries a block phrase and does not match the
    query pattern, and the streamer is returned as it was. *)
Theorem block_result_inv (self self' : PiHoleStreamer)
    (line description address : string) :
  parse_log_line self line = (Some (description, address, true), self') →
  description = line ∧ self' = self
  ∧ last_query_ip self = Some address ∧ address ≠ ""
  ∧ is_block_line line = true
  ∧ re_search query_pattern line = None.
Proof.
  unfold parse_log_line.
  destruct (re_search query_pattern line) as [m|]; [done|].
  destruct (is_block_line line); [|done].
  destruct (last_query_ip self) as [last|]; [|done].
  destruct (truthy last) eqn:Ht; [|done].
  intros [= <- <- <-]. repeat split. by intros ->.
Qed.

Lemma block_result_inv_witness :
  let self :=
    set_last_query_ip (__init__ "pihole1" "pi" Colors.CYAN)
      (Some "192.168.1.100") in
  scenario_block = scenario_block ∧ self = self
  ∧ last_query_ip self = Some "192.168.1.100" ∧ "192.168.1.100" ≠ ""
  ∧ is_block_line scenario_block = true
  ∧ re_search query_pattern scenario_block = None.
Proof.
  apply (block_result_inv
           (set_last_query_ip (__init__ "pihole1" "pi" Colors.CYAN)
              (Some "192.168.1.100"))
           _ scenario_block scenario_block "192.168.1.100").
  vm_compute. reflexivity.
Defined.

Lemma parse_log_line_last_query (self : PiHoleStreamer) (line : string) :
  last_query_ip (snd (parse_log_line self line))
  = last_query_addr (last_query_ip self) [fst (parse_log_line self line)].
Proof.
  unfold parse_log_line.
  destruct (re_search query_pattern line) as [m|]; [done|].
  destruct (is_block_line line); [|done].
  destruct (last_query_ip self) as [last|] eqn:Hl; [|by simpl].
  destruct (truthy last); by simpl.
Qed.

(** X4.  Over any sequence of lines, the remembered address is that of the
    latest query classified so far, and every block carries the address of
    the latest query classified before it. *)
Theorem blocks_follow_latest_query (self self' : PiHoleStreamer)
    (lines : list string) (events : list (option (string * string * bool))) :
  parse_all self lines = (events, self') →
  last_query_ip self' = last_query_addr (last_query_ip self) events
  ∧ ∀ (i : nat) (description address : string),
      events !! i = Some (Some (description, address, true)) →
      last_query_addr (last_query_ip self) (take i events) = Some address.
Proof.
  revert self events. induction lines as [|line lines IH]; intros self events.
  { simpl. intros [= <- <-]. split; [done|]. by intros i ? ?. }
  simpl.
  pose proof (parse_log_line_last_query self line) as Hstep.
  destruct (parse_log_line self line) as [ev self1] eqn:Hp. simpl in Hstep.
  destruct (parse_all self1 lines) as [evs self2] eqn:Hall.
  intros [= <- <-].
  destruct (IH _ _ Hall) as [Hlast Hblocks]. split.
  - simpl. by rewrite Hlast, Hstep.
  - intros [|i] d a; simpl.
    + intros [= ->]. by destruct (block_result_inv _ _ _ _ _ Hp) as (_ & _ & ? & _).
    + intros Hi. rewrite <- Hstep. by apply (Hblocks i d).
Qed.

Lemma blocks_follow_latest_query_witness :
  let self := __init__ "pihole1" "pi" Colors.CYAN in
  let lines :=
    ["query[A] a.example from 10.0.0.1"; "query[A] b.example from 10.0.0.2";
     "reply b.example is 1.2.3.4"; "gravity blocked b.example is 0.0.0.0"] in
  last_query_ip (snd (parse_all self lines))
  = last_query_addr (last_query_ip self) (fst (parse_all self lines))
  ∧ ∀ (i : nat) (description address : string),
      fst (parse_all self lines) !! i
      = Some (Some (description, address, true)) →
      last_query_addr (last_query_ip self) (take i (fst (parse_all self lines)))
      = Some address.
Proof.
  apply (blocks_follow_latest_query (__init__ "pihole1" "pi" Colors.CYAN)
           _ ["query[A] a.example from 10.0.0.1";
              "query[A] b.example from 10.0.0.2";
              "reply b.example is 1.2.3.4";
              "gravity blocked b.example is 0.0.0.0"]).
  vm_compute. reflexivity.
Defined.

Lemma query_line_is_token (line addr : string) :
  query_line line addr → is_token addr = true.
Proof.
  intros Hq. unfold is_token. rewrite (query_line_truthy _ _ Hq).
  by destruct Hq as (_ & _ & _ & _ & _ & _ & _ & _ & _ & _ & _ & -> & _).
Qed.

Lemma parse_log_line_token (self : PiHoleStreamer) (line : string) :
  (∀ a, last_query_ip self = Some a → is_token a = true) →
  (∀ a, last_query_ip (snd (parse_log_line self line)) = Some a →
        is_token a = true)
  ∧ (∀ d a b, fst (parse_log_line self line) = Some (d, a, b) →
              is_token a = true).
Proof.
  intros Hinv. unfold parse_log_line.
  destruct (re_search query_pattern line) as [m|] eqn:Hm.
  - pose proof (query_line_is_token _ _ (group1_query _ _ Hm)) as Ht.
    split; simpl.
    + intros a Ha. by simplify_eq.
    + intros d a b Ha. by simplify_eq.
  - destruct (is_block_line line); [|split; simpl; [exact Hinv | done]].
    destruct (last_query_ip self) as [last|] eqn:Hl;
      [|split; simpl; [by rewrite Hl | done]].
    destruct (truthy last); [|split; simpl; [by rewrite Hl | done]].
    split; simpl; [by rewrite Hl|]. intros d a b Ha. simplify_eq. by apply Hinv.
Qed.

(** X5.  Starting from a streamer whose remembered address, if any, is a
    non-empty run of digits and dots (a new streamer has none), so is the
    remembered address after any sequence of lines, and so is the address of
    every result: no empty or otherwise shaped address is ever handed on. *)
Theorem addresses_are_tokens (self : PiHoleStreamer) (lines : list string) :
  (∀ a, last_query_ip self = Some a → is_token a = true) →
  (∀ a, last_query_ip (snd (parse_all self lines)) = Some a →
        is_token a = true)
  ∧ (∀ d a b, Some (d, a, b) ∈ fst (parse_all self lines) →
              is_token a = true).
Proof.
  revert self. induction lines as [|line lines IH]; intros self Hinv; simpl.
  { split; [done|]. by intros d a b ?%elem_of_nil. }
  destruct (parse_log_line_token self line Hinv) as [Hs He].
  destruct (parse_log_line self line) as [ev self1]. simpl in Hs, He.
  destruct (IH self1 Hs) as [Hs' He'].
  destruct (parse_all self1 lines) as [evs self2]. simpl in *.
  split; [done|].
  intros d a b [Heq|Hin]%elem_of_cons;
    [by apply (He d a b) | by apply (He' d a b)].
Qed.

Lemma addresses_are_tokens_witness :
  let self := __init__ "pihole1" "pi" Colors.CYAN in
  let lines := ["query[A] a.example from 10.0.0.1"; scenario_block] in
  (∀ a, last_query_ip (snd (parse_all self lines)) = Some a →
        is_token a = true)
  ∧ (∀ d a b, Some (d, a, b) ∈ fst (parse_all self lines) →
              is_token a = true).
Proof.
  apply (addresses_are_tokens (__init__ "pihole1" "pi" Colors.CYAN)
           ["query[A] a.example from 10.0.0.1"; scenario_block]).
  simpl. discriminate.
Defined.

Lemma lower_split (s u v : string) :
  lower s = u +:+ v → ∃ s1 s2, s = s1 +:+ s2 ∧ lower s1 = u ∧ lower s2 = v.
Proof.
  revert s. induction u as [|c u IH]; intros s; simpl.
  - intros Hv. by exists "", s.
  - destruct s as [|a s]; simpl; [done|]. intros [= Hc Hs].
    destruct (IH _ Hs) as (s1 & s2 & -> & <- & <-).
    exists (String a s1), s2. simpl. by rewrite Hc.
Qed.

Lemma str_in_lower (phrase line : string) :
  str_in phrase (lower line) = true
  ↔ ∃ x p y, line = x +:+ p +:+ y ∧ lower p = phrase.
Proof.
  rewrite str_in_spec. split.
  - intros (x' & y' & Hl).
    destruct (lower_split _ _ _ Hl) as (x & r & -> & _ & Hr).
    destruct (lower_split _ _ _ Hr) as (p & y & -> & Hp & _).
    by exists x, p, y.
  - intros (x & p & y & -> & <-).
    exists (lower x), (lower y). by rewrite !lower_append.
Qed.

(** X6.  A line is a block/deny line exactly when some stretch of it reads,
    letter case put aside, as one of the three phrases, wherever it
    stands in the line. *)
Theorem is_block_line_iff (line : string) :
  is_block_line line = true
  ↔ ∃ x p y, line = x +:+ p +:+ y ∧ lower p ∈ block_phrases.
Proof.
  unfold is_block_line, block_phrases.
  rewrite !orb_true_iff, !str_in_lower. split.
  - intros [[(x & p & y & -> & Hp) | (x & p & y & -> & Hp)]
            | (x & p & y & -> & Hp)];
      exists x, p, y; (split; [done|]); rewrite Hp; set_solver.
  - intros (x & p & y & -> & Hp).
    apply elem_of_cons in Hp as [Hp|Hp]; [left; left; by exists x, p, y|].
    apply elem_of_cons in Hp as [Hp|Hp]; [left; right; by exists x, p, y|].
    apply list_elem_of_singleton in Hp. right. by exists x, p, y.
Qed.

(* ================================================================== *)
(** * Further properties of the resolver and the streaming loop *)

Lemma strip_all_space (s : string) :
  forall_chars isspace s = true → strip s = "".
Proof.
  unfold strip. induction s as [|a s IH]; simpl; [done|].
  intros [Ha Hs]%andb_true_iff. rewrite Ha. by apply IH.
Qed.

Lemma truthy_true (s : string) : truthy s = true ↔ s ≠ "".
Proof. destruct s; simpl; split; done. Qed.

Section StreamingFurther.

Variable gethostbyaddr : list string → string → result string.
Variable strftime_now : nat → string.

(** X7.  A call of [resolve_hostname] keeps every cache entry it found,
    touches no entry of another address, and what it returns is what the
    cache then holds for the address. *)
Theorem resolve_hostname_cache (self self' : PiHoleStreamer) (w w' : World)
    (ip : string) (r : result string) :
  resolve_hostname gethostbyaddr self w ip = (r, self', w') →
  cache_extends self self'
  ∧ (∀ k, k ≠ ip → dns_cache self' !! k = dns_cache self !! k)
  ∧ (∀ name, r = Return name → dns_cache self' !! ip = Some name)
  ∧ same_session self self'
  ∧ last_query_ip self' = last_query_ip self.
Proof.
  unfold resolve_hostname, cache_extends, same_session.
  destruct (dns_cache self !! ip) as [cached|] eqn:Hc.
  { intros [= <- <- <-]. repeat split; try done. by intros ? [= <-]. }
  assert (Hins : ∀ v k u, dns_cache self !! k = Some u →
                          <[ip:=v]> (dns_cache self) !! k = Some u).
  { intros v k u Hk. rewrite lookup_insert_ne; [done|]. congruence. }
  destruct (gethostbyaddr (lookups w) ip) as [name|e].
  - intros [= <- <- <-]. simpl. repeat split; try done.
    + by apply Hins.
    + intros k Hk. by rewrite lookup_insert_ne.
    + intros ? [= <-]. apply lookup_insert_eq.
  - destruct (caught e); intros [= <- <- <-]; simpl; repeat split; try done.
    + by apply Hins.
    + intros k Hk. by rewrite lookup_insert_ne.
    + intros ? [= <-]. apply lookup_insert_eq.
Qed.

(** The loop of [stream_logs] is [handle_line] over the effective lines. *)
Lemma stream_loop_handle_all (show_blocked_only : bool)
    (filter_host : option string) (verbose : bool) (stdout : list string)
    (self : PiHoleStreamer) (w : World) (queue : list string) :
  stream_loop gethostbyaddr strftime_now show_blocked_only filter_host
    verbose stdout self w queue
  = handle_all gethostbyaddr strftime_now show_blocked_only filter_host
      verbose (effective_lines stdout) self w queue.
Proof.
  revert self w queue.
  induction stdout as [|raw rest IH]; intros self w queue; simpl; [done|].
  destruct (truthy raw); simpl; [|done].
  destruct (truthy (strip raw)); simpl; [|by apply IH].
  destruct (handle_line _ _ _ _ _ self w queue (strip raw))
    as [[[[u|e] self1] w1] queue1]; [by apply IH | done].
Qed.

Lemma effective_lines_length (stdout : list string) :
  length (effective_lines stdout) ≤ length stdout.
Proof.
  induction stdout as [|raw rest IH]; simpl; [done|].
  destruct (truthy raw); simpl; [|lia].
  destruct (truthy (strip raw)); simpl; lia.
Qed.

Lemma format_blocked_session (self self' : PiHoleStreamer)
    (timestamp display query_part : string) :
  same_session self self' →
  format_blocked self' timestamp display query_part
  = format_blocked self timestamp display query_part.
Proof. intros (Hh & _ & Hc & _). unfold format_blocked. by rewrite Hh, Hc. Qed.

Lemma same_session_trans (s1 s2 s3 : PiHoleStreamer) :
  same_session s1 s2 → same_session s2 s3 → same_session s1 s3.
Proof. unfold same_session. intros (?&?&?&?) (?&?&?&?). repeat split; congruence. Qed.

Lemma parse_log_line_session (self : PiHoleStreamer) (line : string) :
  same_session self (snd (parse_log_line self line)).
Proof.
  unfold parse_log_line.
  destruct (re_search query_pattern line); [done|].
  destruct (is_block_line line); [|done].
  destruct (last_query_ip self) as [last|]; [|done].
  by destruct (truthy last).
Qed.

Lemma handle_line_frame (show_blocked_only : bool) (filter_host : option string)
    (verbose : bool) (self self' : PiHoleStreamer) (w w' : World)
    (queue queue' : list string) (line : string) (r : result unit) :
  handle_line gethostbyaddr strftime_now show_blocked_only filter_host
    verbose self w queue line = (r, self', w', queue') →
  same_session self self' ∧ cache_extends self self'
  ∧ last_query_ip self' = last_query_ip (snd (parse_log_line self line)).
Proof.
  intros Hh. unfold handle_line in Hh.
  pose proof (parse_log_line_session self line) as Hs.
  pose proof (parse_log_line_dns_cache self line) as Hd.
  destruct (parse_log_line self line) as [parsed self1]. simpl in *.
  assert (Hce : cache_extends self self1).
  { intros k v. by rewrite Hd. }
  destruct parsed as [[[query_part ip] is_blocked]|].
  - destruct (show_blocked_only && negb is_blocked); [by simplify_eq|].
    destruct (resolve_hostname gethostbyaddr self1 w ip)
      as [[r2 self2] w2] eqn:Hr.
    destruct (resolve_hostname_cache _ _ _ _ _ _ Hr)
      as (Hce2 & _ & _ & Hs2 & Hl2).
    assert (same_session self self2 ∧ cache_extends self self2
            ∧ last_query_ip self2 = last_query_ip self1) as Hgoal.
    { split; [by eapply same_session_trans|]. split; [|done].
      intros k v Hk. by apply Hce2, Hce. }
    destruct r2 as [resolved|e]; [|by simplify_eq].
    destruct (host_filter_rejects filter_host resolved ip); by simplify_eq.
  - destruct (verbose && _ && _); by simplify_eq.
Qed.

Lemma resolve_hostname_world (self self' : PiHoleStreamer) (w w' : World)
    (ip : string) (r : result string) :
  resolve_hostname gethostbyaddr self w ip = (r, self', w') →
  clock w' = clock w
  ∧ (∃ new, lookups w' = lookups w ++ new ∧ length new ≤ 1
            ∧ ∀ x, x ∈ new → x = ip)
  ∧ (∀ e, r = Raise e →
          caught e = false ∧ gethostbyaddr (lookups w) ip = Raise e).
Proof.
  unfold resolve_hostname.
  assert (Hone : ∃ new, lookups w ++ [ip] = lookups w ++ new ∧ length new ≤ 1
            ∧ ∀ x, x ∈ new → x = ip).
  { exists [ip]. split; [done|]. split; [simpl; lia|].
    by intros x ->%list_elem_of_singleton. }
  destruct (dns_cache self !! ip) as [cached|].
  { intros [= <- <- <-]. split; [done|]. split; [|done].
    exists []. rewrite app_nil_r. split; [done|]. split; [simpl; lia|].
    by intros x ?%elem_of_nil. }
  destruct (gethostbyaddr (lookups w) ip) as [name|e] eqn:Hg.
  - intros [= <- <- <-]. by split.
  - destruct (caught e) eqn:Hc; intros [= <- <- <-]; simpl;
      (split; [done|]); (split; [done|]); [done|].
    by intros ? [= <-].
Qed.

Lemma handle_line_queue (show_blocked_only : bool) (filter_host : option string)
    (verbose : bool) (self self' : PiHoleStreamer) (w w' : World)
    (queue queue' : list string) (line : string) (r : result unit) :
  handle_line gethostbyaddr strftime_now show_blocked_only filter_host
    verbose self w queue line = (r, self', w', queue') →
  ∃ added, queue' = queue ++ added ∧ length added ≤ 1
           ∧ clock w' = clock w + length added
           ∧ (show_blocked_only = true →
              ∀ x, x ∈ added →
                   ∃ timestamp display query_part,
                     x = format_blocked self timestamp display query_part).
Proof.
  intros Hh.
  assert (Hnone : ∀ w1, clock w1 = clock w →
    ∃ added, queue = queue ++ added ∧ length added ≤ 1
             ∧ clock w1 = clock w + length added
             ∧ (show_blocked_only = true →
                ∀ x, x ∈ added →
                     ∃ timestamp display query_part,
                       x = format_blocked self timestamp display query_part)).
  { intros w1 Hw1. exists []. rewrite app_nil_r. simpl.
    split; [done|]. split; [lia|]. split; [lia|].
    by intros _ x ?%elem_of_nil. }
  unfold handle_line in Hh.
  pose proof (parse_log_line_session self line) as Hs.
  destruct (parse_log_line self line) as [parsed self1]. simpl in Hs.
  destruct parsed as [[[query_part ip] is_blocked]|].
  - destruct (show_blocked_only && negb is_blocked) eqn:Hgate.
    { simplify_eq. by apply Hnone. }
    destruct (resolve_hostname gethostbyaddr self1 w ip)
      as [[r2 self2] w2] eqn:Hr.
    destruct (resolve_hostname_world _ _ _ _ _ _ Hr) as (Hclock & _ & _).
    destruct (resolve_hostname_cache _ _ _ _ _ _ Hr)
      as (_ & _ & _ & Hs2 & _).
    destruct r2 as [resolved|e]; [|simplify_eq; by apply Hnone].
    destruct (host_filter_rejects filter_host resolved ip);
      [simplify_eq; by apply Hnone|].
    simplify_eq. eexists [_]. simpl.
    split; [done|]. split; [lia|]. split; [lia|].
    intros -> x ->%list_elem_of_singleton.
    destruct is_blocked; [|done].
    eexists _, _, _. apply format_blocked_session.
    by eapply same_session_trans.
  - destruct (verbose && _ && negb show_blocked_only) eqn:Hv.
    + simplify_eq. eexists [_]. simpl.
      split; [done|]. split; [lia|]. split; [lia|].
      intros ->. by rewrite andb_false_r in Hv.
    + simplify_eq. by apply Hnone.
Qed.

Lemma frame_refl (self : PiHoleStreamer) :
  same_session self self ∧ cache_extends self self.
Proof. split; [by repeat split | by intros k v]. Qed.

Lemma cache_extends_trans (s1 s2 s3 : PiHoleStreamer) :
  cache_extends s1 s2 → cache_extends s2 s3 → cache_extends s1 s3.
Proof. intros H12 H23 k v Hk. by apply H23, H12. Qed.

Lemma handle_all_frame (show_blocked_only : bool) (filter_host : option string)
    (verbose : bool) (lines : list string) (self self' : PiHoleStreamer)
    (w w' : World) (queue queue' : list string) (r : result unit) :
  handle_all gethostbyaddr strftime_now show_blocked_only filter_host
    verbose lines self w queue = (r, self', w', queue') →
  same_session self self' ∧ cache_extends self self'.
Proof.
  revert self w queue.
  induction lines as [|line lines IH]; intros self w queue; simpl.
  { intros [= <- <- <- <-]. apply frame_refl. }
  destruct (handle_line _ _ _ _ _ self w queue line)
    as [[[r1 self1] w1] queue1] eqn:Hh.
  destruct (handle_line_frame _ _ _ _ _ _ _ _ _ _ _ Hh) as (Hs & Hc & _).
  destruct r1 as [u|e]; [|by intros [= <- <- <- <-]].
  intros [Hs' Hc']%IH. split;
    [by eapply same_session_trans | by eapply cache_extends_trans].
Qed.

(** X8.  [stream_logs] never changes the host name, user name, colour or
    session of the streamer, and never removes or alters a cache entry:
    whatever the cache held before the run it holds afterwards. *)
Theorem stream_logs_frame (self self' : PiHoleStreamer) (stdout : list string)
    (w w' : World) (queue queue' : list string) (show_blocked_only : bool)
    (filter_host : option string) (verbose : bool) (r : result unit) :
  stream_logs gethostbyaddr strftime_now self stdout w queue
    show_blocked_only filter_host verbose = (r, self', w', queue') →
  same_session self self' ∧ cache_extends self self'.
Proof.
  unfold stream_logs. destruct (client self).
  - rewrite stream_loop_handle_all. apply handle_all_frame.
  - intros [= <- <- <- <-]. apply frame_refl.
Qed.

Lemma handle_all_queue (show_blocked_only : bool) (filter_host : option string)
    (verbose : bool) (lines : list string) (self self' : PiHoleStreamer)
    (w w' : World) (queue queue' : list string) (r : result unit) :
  handle_all gethostbyaddr strftime_now show_blocked_only filter_host
    verbose lines self w queue = (r, self', w', queue') →
  ∃ added, queue' = queue ++ added ∧ length added ≤ length lines
           ∧ clock w' = clock w + length added
           ∧ (show_blocked_only = true →
              ∀ x, x ∈ added →
                   ∃ timestamp display query_part,
                     x = format_blocked self timestamp display query_part).
Proof.
  revert self w queue.
  induction lines as [|line lines IH]; intros self w queue; simpl.
  { intros [= <- <- <- <-]. exists []. rewrite app_nil_r. simpl.
    split; [done|]. split; [lia|]. split; [lia|].
    by intros _ x ?%elem_of_nil. }
  destruct (handle_line _ _ _ _ _ self w queue line)
    as [[[r1 self1] w1] queue1] eqn:Hh.
  destruct (handle_line_queue _ _ _ _ _ _ _ _ _ _ _ Hh)
    as (a1 & -> & Hlen1 & Hclock1 & Hblock1).
  destruct (handle_line_frame _ _ _ _ _ _ _ _ _ _ _ Hh) as (Hs & _ & _).
  destruct r1 as [u|e].
  - intros (a2 & -> & Hlen2 & Hclock2 & Hblock2)%IH.
    exists (a1 ++ a2). rewrite app_assoc, length_app.
    split; [done|]. split; [lia|]. split; [lia|].
    intros Hb x [Hx|Hx]%elem_of_app; [by apply Hblock1|].
    destruct (Hblock2 Hb x Hx) as (ts & disp & qp & ->).
    exists ts, disp, qp. by apply format_blocked_session.
  - intros [= <- <- <- <-]. exists a1.
    split; [done|]. split; [lia|]. by split.
Qed.

(** X9.  [stream_logs] only appends to the queue: what was queued stays in
    place, at most one string is added per value read, and the clock is
    read exactly once for each string added. *)
Theorem stream_logs_appends (self self' : PiHoleStreamer) (stdout : list string)
    (w w' : World) (queue queue' : list string) (show_blocked_only : bool)
    (filter_host : option string) (verbose : bool) (r : result unit) :
  stream_logs gethostbyaddr strftime_now self stdout w queue
    show_blocked_only filter_host verbose = (r, self', w', queue') →
  ∃ added, queue' = queue ++ added
           ∧ length added ≤ length stdout
           ∧ clock w' = clock w + length added.
Proof.
  unfold stream_logs. destruct (client self).
  - rewrite stream_loop_handle_all.
    intros (added & -> & Hlen & Hclock & _)%handle_all_queue.
    exists added. pose proof (effective_lines_length stdout).
    split; [done|]. split; lia.
  - intros [= <- <- <- <-]. exists []. rewrite app_nil_r. simpl.
    split; [done|]. split; lia.
Qed.

(** X10.  In blocked-only mode every string put on the queue is a
    block-styled event of this streamer; no query and no unparsed line is
    ever shown, whatever the verbose switch says. *)
Theorem blocked_only_emits_blocks (self self' : PiHoleStreamer)
    (stdout : list string) (w w' : World) (queue queue' : list string)
    (filter_host : option string) (verbose : bool) (r : result unit) :
  stream_logs gethostbyaddr strftime_now self stdout w queue
    true filter_host verbose = (r, self', w', queue') →
  ∃ added, queue' = queue ++ added
           ∧ ∀ x, x ∈ added →
                  ∃ timestamp display query_part,
                    x = format_blocked self timestamp display query_part.
Proof.
  unfold stream_logs. destruct (client self).
  - rewrite stream_loop_handle_all.
    intros (added & -> & _ & _ & Hblock)%handle_all_queue.
    exists added. split; [done|]. by apply Hblock.
  - intros [= <- <- <- <-]. exists []. rewrite app_nil_r.
    split; [done|]. by intros x ?%elem_of_nil.
Qed.

(** X11.  A host that cannot be resolved is shown by its address and does
    not stop the loop: when the address of an event that reaches the
    resolver is not cached and the lookup raises [socket.herror] or
    [socket.gaierror], [handle_line] returns normally, caches the address
    as its own name, and (unless the host filter rejects it) queues the
    event with the bare address as host label. *)
Theorem unresolved_host_shown_by_address (show_blocked_only : bool)
    (filter_host : option string) (verbose : bool)
    (self self1 : PiHoleStreamer) (w : World) (queue : list string)
    (line query_part ip : string) (is_blocked : bool) (e : exn) :
  parse_log_line self line = (Some (query_part, ip, is_blocked), self1) →
  show_blocked_only && negb is_blocked = false →
  dns_cache self !! ip = None →
  gethostbyaddr (lookups w) ip = Raise e →
  e = socket_herror ∨ e = socket_gaierror →
  let self2 := set_dns_cache self1 (<[ip:=ip]> (dns_cache self1)) in
  let formatted :=
    if is_blocked
    then format_blocked self (strftime_now (clock w)) ip query_part
    else format_query self (strftime_now (clock w)) ip query_part in
  handle_line gethostbyaddr strftime_now show_blocked_only filter_host
    verbose self w queue line
  = if host_filter_rejects filter_host ip ip
    then (Return tt, self2, log_lookup w ip, queue)
    else (Return tt, self2, tick (log_lookup w ip), queue ++ [formatted]).
Proof.
  intros Hp Hgate Hc Hl He self2 formatted. subst self2 formatted.
  pose proof (parse_log_line_dns_cache self line) as Hd.
  pose proof (parse_log_line_session self line) as (Hh & _ & Hcol & _).
  rewrite Hp in Hd, Hh, Hcol. simpl in Hd, Hh, Hcol.
  unfold handle_line. rewrite Hp, Hgate.
  unfold resolve_hostname. rewrite Hd, Hc, Hl.
  replace (caught e) with true by (by destruct He as [-> | ->]).
  destruct (host_filter_rejects filter_host ip ip); [done|].
  unfold host_display. rewrite String.eqb_refl.
  unfold format_blocked, format_query. simpl. by rewrite Hh, Hcol.
Qed.

Lemma handle_line_lookups (show_blocked_only : bool) (filter_host : option string)
    (verbose : bool) (self self' : PiHoleStreamer) (w w' : World)
    (queue queue' : list string) (line : string) (r : result unit) :
  (∀ a, last_query_ip self = Some a → is_token a = true) →
  handle_line gethostbyaddr strftime_now show_blocked_only filter_host
    verbose self w queue line = (r, self', w', queue') →
  ∃ new, lookups w' = lookups w ++ new ∧ length new ≤ 1
         ∧ (∀ x, x ∈ new → is_token x = true).
Proof.
  intros Hinv Hh.
  assert (Hnone : ∃ new, lookups w = lookups w ++ new ∧ length new ≤ 1
                         ∧ (∀ x, x ∈ new → is_token x = true)).
  { exists []. rewrite app_nil_r. split; [done|]. split; [simpl; lia|].
    by intros x ?%elem_of_nil. }
  unfold handle_line in Hh.
  destruct (parse_log_line_token self line Hinv) as [_ Htok].
  destruct (parse_log_line self line) as [parsed self1]. simpl in Htok.
  destruct parsed as [[[query_part ip] is_blocked]|].
  - destruct (show_blocked_only && negb is_blocked); [by simplify_eq|].
    destruct (resolve_hostname gethostbyaddr self1 w ip)
      as [[r2 self2] w2] eqn:Hr.
    destruct (resolve_hostname_world _ _ _ _ _ _ Hr)
      as (_ & (new & Hnew & Hlen & Hip) & _).
    assert (∃ new, lookups w2 = lookups w ++ new ∧ length new ≤ 1
                   ∧ (∀ x, x ∈ new → is_token x = true)) as Hgoal.
    { exists new. split; [done|]. split; [done|].
      intros x ->%Hip. by eapply Htok. }
    destruct r2 as [resolved|e]; [|by simplify_eq].
    destruct (host_filter_rejects filter_host resolved ip); by simplify_eq.
  - destruct (verbose && _ && _); by simplify_eq.
Qed.

(** X12.  On a streamer whose remembered address, if any, is a run of
    digits and dots (a new streamer has none), every address that
    [stream_logs] passes to the reverse lookup is a non-empty run of digits
    and dots, and at most one lookup is made per value read. *)
Theorem lookups_are_tokens (self self' : PiHoleStreamer) (stdout : list string)
    (w w' : World) (queue queue' : list string) (show_blocked_only : bool)
    (filter_host : option string) (verbose : bool) (r : result unit) :
  (∀ a, last_query_ip self = Some a → is_token a = true) →
  stream_logs gethostbyaddr strftime_now self stdout w queue
    show_blocked_only filter_host verbose = (r, self', w', queue') →
  ∃ new, lookups w' = lookups w ++ new ∧ length new ≤ length stdout
         ∧ (∀ x, x ∈ new → is_token x = true).
Proof.
  intros Hinv. unfold stream_logs. destruct (client self).
  2:{ intros [= <- <- <- <-]. exists []. rewrite app_nil_r.
      split; [done|]. split; [simpl; lia|]. by intros x ?%elem_of_nil. }
  rewrite stream_loop_handle_all.
  pose proof (effective_lines_length stdout) as Hlen.
  intros Hall.
  cut (∃ new, lookups w' = lookups w ++ new
              ∧ length new ≤ length (effective_lines stdout)
              ∧ (∀ x, x ∈ new → is_token x = true)).
  { intros (new & ? & ? & ?). exists new. split; [done|]. split; [lia|done]. }
  clear Hlen. revert self w queue Hinv Hall.
  induction (effective_lines stdout) as [|line lines IH];
    intros self w queue Hinv; simpl.
  { intros [= <- <- <- <-]. exists []. rewrite app_nil_r.
    split; [done|]. split; [simpl; lia|]. by intros x ?%elem_of_nil. }
  destruct (handle_line _ _ _ _ _ self w queue line)
    as [[[r1 self1] w1] queue1] eqn:Hh.
  destruct (handle_line_lookups _ _ _ _ _ _ _ _ _ _ _ Hinv Hh)
    as (n1 & Hn1 & Hlen1 & Htok1).
  destruct (handle_line_frame _ _ _ _ _ _ _ _ _ _ _ Hh) as (_ & _ & Hlast).
  destruct r1 as [u|e].
  - intros Hall. destruct (IH self1 w1 queue1) as (n2 & Hn2 & Hlen2 & Htok2).
    { rewrite Hlast. by apply parse_log_line_token. }
    { done. }
    exists (n1 ++ n2). rewrite Hn2, Hn1, app_assoc, length_app.
    split; [done|]. split; [lia|].
    intros x [Hx|Hx]%elem_of_app; [by apply Htok1 | by apply Htok2].
  - intros [= <- <- <- <-]. exists n1. split; [done|]. split; [lia|done].
Qed.

Lemma handle_line_verbose (show_blocked_only : bool) (filter_host : option string)
    (self : PiHoleStreamer) (w : World) (queue : list string) (line : string) :
  show_blocked_only = true ∨ (∃ f, filter_host = Some f ∧ f ≠ "") →
  handle_line gethostbyaddr strftime_now show_blocked_only filter_host
    true self w queue line
  = handle_line gethostbyaddr strftime_now show_blocked_only filter_host
      false self w queue line.
Proof.
  intros Hmode. unfold handle_line.
  destruct (parse_log_line self line) as [[[[query_part ip] is_blocked]|] self1];
    [done|].
  destruct Hmode as [-> | (f & -> & Hf%truthy_true)].
  - by rewrite andb_false_r.
  - by rewrite Hf.
Qed.

(** X13.  The verbose switch has no effect when blocked-only mode is on or
    a non-empty host filter is set. *)
Theorem verbose_ignored_with_filters (self : PiHoleStreamer)
    (stdout : list string) (w : World) (queue : list string)
    (show_blocked_only : bool) (filter_host : option string) :
  show_blocked_only = true ∨ (∃ f, filter_host = Some f ∧ f ≠ "") →
  stream_logs gethostbyaddr strftime_now self stdout w queue
    show_blocked_only filter_host true
  = stream_logs gethostbyaddr strftime_now self stdout w queue
      show_blocked_only filter_host false.
Proof.
  intros Hmode. unfold stream_logs. destruct (client self); [|done].
  rewrite !stream_loop_handle_all. revert self w queue.
  induction (effective_lines stdout) as [|line lines IH];
    intros self w queue; simpl; [done|].
  rewrite (handle_line_verbose _ _ _ _ _ _ Hmode).
  destruct (handle_line _ _ _ _ _ self w queue line)
    as [[[[u|e] self1] w1] queue1]; [apply IH | done].
Qed.

(** X14.  An empty filter string is no filter: [stream_logs] behaves with
    it exactly as with none. *)
Theorem empty_filter_is_no_filter (self : PiHoleStreamer)
    (stdout : list string) (w : World) (queue : list string)
    (show_blocked_only verbose : bool) :
  stream_logs gethostbyaddr strftime_now self stdout w queue
    show_blocked_only (Some "") verbose
  = stream_logs gethostbyaddr strftime_now self stdout w queue
      show_blocked_only None verbose.
Proof.
  unfold stream_logs. destruct (client self); [|done].
  rewrite !stream_loop_handle_all. revert self w queue.
  induction (effective_lines stdout) as [|line lines IH];
    intros self w queue; simpl; [done|].
  assert (handle_line gethostbyaddr strftime_now show_blocked_only (Some "")
            verbose self w queue line
          = handle_line gethostbyaddr strftime_now show_blocked_only None
              verbose self w queue line) as -> by done.
  destruct (handle_line _ _ _ _ _ self w queue line)
    as [[[[u|e] self1] w1] queue1]; [apply IH | done].
Qed.

Lemma effective_lines_eof (before after : list string) :
  effective_lines (before ++ "" :: after) = effective_lines before.
Proof.
  induction before as [|raw before IH]; simpl; [done|].
  destruct (truthy raw); [|done]. by rewrite IH.
Qed.

Lemma effective_lines_blank (before after : list string) (raw : string) :
  raw ≠ "" → forall_chars isspace raw = true →
  effective_lines (before ++ raw :: after) = effective_lines (before ++ after).
Proof.
  intros Hne%truthy_true Hsp.
  induction before as [|x before IH]; simpl.
  - by rewrite Hne, (strip_all_space _ Hsp).
  - destruct (truthy x); [|done]. by rewrite IH.
Qed.

(** X15.  Reading stops at the first empty value: whatever would follow it
    is never looked at.  A value made of white space only is skipped and
    changes nothing. *)
Theorem end_of_stream_and_blank_lines (self : PiHoleStreamer)
    (before after : list string) (blank : string) (w : World)
    (queue : list string) (show_blocked_only : bool)
    (filter_host : option string) (verbose : bool) :
  blank ≠ "" → forall_chars isspace blank = true →
  stream_logs gethostbyaddr strftime_now self (before ++ "" :: after) w queue
    show_blocked_only filter_host verbose
  = stream_logs gethostbyaddr strftime_now self before w queue
      show_blocked_only filter_host verbose
  ∧ stream_logs gethostbyaddr strftime_now self (before ++ blank :: after)
      w queue show_blocked_only filter_host verbose
    = stream_logs gethostbyaddr strftime_now self (before ++ after) w queue
        show_blocked_only filter_host verbose.
Proof.
  intros Hne Hsp. unfold stream_logs. destruct (client self); [|done].
  rewrite !stream_loop_handle_all.
  by rewrite effective_lines_eof, (effective_lines_blank _ _ _ Hne Hsp).
Qed.

Lemma effective_lines_app (xs ys : list string) :
  Forall (λ raw, raw ≠ "") xs →
  effective_lines (xs ++ ys) = effective_lines xs ++ effective_lines ys.
Proof.
  induction 1 as [|raw xs Hne%truthy_true _ IH]; simpl; [done|].
  by rewrite Hne, IH, app_assoc.
Qed.

Lemma handle_all_app (show_blocked_only : bool) (filter_host : option string)
    (verbose : bool) (xs ys : list string) (self self1 : PiHoleStreamer)
    (w w1 : World) (queue queue1 : list string) (u : unit) :
  handle_all gethostbyaddr strftime_now show_blocked_only filter_host
    verbose xs self w queue = (Return u, self1, w1, queue1) →
  handle_all gethostbyaddr strftime_now show_blocked_only filter_host
    verbose (xs ++ ys) self w queue
  = handle_all gethostbyaddr strftime_now show_blocked_only filter_host
      verbose ys self1 w1 queue1.
Proof.
  revert self w queue. induction xs as [|x xs IH]; intros self w queue; simpl.
  { intros ?. by simplify_eq. }
  destruct (handle_line _ _ _ _ _ self w queue x)
    as [[[[u1|e] self2] w2] queue2]; [apply IH | done].
Qed.

(** X16.  Streaming is incremental: if the values [xs], none of them empty,
    have been processed without an exception, processing [xs ++ ys] from the
    start is processing [ys] from the streamer, world and queue reached. *)
Theorem stream_logs_incremental (self self1 : PiHoleStreamer)
    (xs ys : list string) (w w1 : World) (queue queue1 : list string)
    (show_blocked_only : bool) (filter_host : option string) (verbose : bool)
    (u : unit) :
  Forall (λ raw, raw ≠ "") xs →
  stream_logs gethostbyaddr strftime_now self xs w queue
    show_blocked_only filter_host verbose = (Return u, self1, w1, queue1) →
  stream_logs gethostbyaddr strftime_now self (xs ++ ys) w queue
    show_blocked_only filter_host verbose
  = stream_logs gethostbyaddr strftime_now self1 ys w1 queue1
      show_blocked_only filter_host verbose.
Proof.
  intros Hxs Hrun.
  destruct (stream_logs_frame _ _ _ _ _ _ _ _ _ _ _ Hrun) as [(_ & _ & _ & Hc) _].
  revert Hrun. unfold stream_logs. rewrite Hc.
  destruct (client self); [|done].
  rewrite !stream_loop_handle_all, (effective_lines_app _ _ Hxs).
  apply handle_all_app.
Qed.

Lemma parse_all_app (self : PiHoleStreamer) (xs ys : list string) :
  snd (parse_all self (xs ++ ys))
  = snd (parse_all (snd (parse_all self xs)) ys).
Proof.
  revert self. induction xs as [|x xs IH]; intros self; simpl; [done|].
  destruct (parse_log_line self x) as [r self1]. specialize (IH self1).
  destruct (parse_all self1 (xs ++ ys)), (parse_all self1 xs) as [rs self2].
  simpl in *. by destruct (parse_all self2 ys).
Qed.

(** X17.  Filters and modes never affect the association state: after a
    run of [stream_logs] without exception the remembered address is the one
    [parse_log_line] alone leaves after the effective lines, whatever the
    blocked-only, filter and verbose settings and the resolver do. *)
Theorem last_query_ip_ignores_modes (self self' : PiHoleStreamer)
    (stdout : list string) (w w' : World) (queue queue' : list string)
    (show_blocked_only : bool) (filter_host : option string) (verbose : bool)
    (u : unit) :
  stream_logs gethostbyaddr strftime_now self stdout w queue
    show_blocked_only filter_host verbose = (Return u, self', w', queue') →
  last_query_ip self'
  = last_query_ip (snd (parse_all self (effective_lines stdout))).
Proof.
  unfold stream_logs. destruct (client self); [|done].
  rewrite stream_loop_handle_all.
  assert (Hcongr : ∀ (s1 s2 : PiHoleStreamer) (ls : list string),
    last_query_ip s1 = last_query_ip s2 →
    last_query_ip (snd (parse_all s1 ls)) = last_query_ip (snd (parse_all s2 ls))).
  { intros s1 s2 ls. revert s1 s2.
    induction ls as [|l ls IHl]; intros s1 s2 Heq; simpl; [done|].
    pose proof (parse_log_line_last_query s1 l) as H1.
    pose proof (parse_log_line_last_query s2 l) as H2.
    assert (fst (parse_log_line s1 l) = fst (parse_log_line s2 l)) as Hfst.
    { unfold parse_log_line. rewrite Heq.
      destruct (re_search query_pattern l); [done|].
      destruct (is_block_line l); [|done].
      destruct (last_query_ip s2) as [last|]; [|done].
      by destruct (truthy last). }
    rewrite Heq, Hfst in H1. rewrite <- H2 in H1.
    destruct (parse_log_line s1 l) as [r1 s1'], (parse_log_line s2 l) as [r2 s2'].
    simpl in H1. specialize (IHl s1' s2' H1).
    by destruct (parse_all s1' ls), (parse_all s2' ls). }
  revert self w queue.
  induction (effective_lines stdout) as [|line lines IH];
    intros self w queue; simpl.
  { intros ?. by simplify_eq. }
  destruct (handle_line _ _ _ _ _ self w queue line)
    as [[[r1 self1] w1] queue1] eqn:Hh.
  destruct (handle_line_frame _ _ _ _ _ _ _ _ _ _ _ Hh) as (_ & _ & Hlast).
  destruct r1 as [u1|e]; [|done].
  intros ->%IH.
  destruct (parse_log_line self line) as [r2 self2]. simpl in Hlast.
  pose proof (Hcongr _ _ lines Hlast) as Hc.
  by destruct (parse_all self2 lines).
Qed.

(** X18.  A formatted event always shows the raw address, resolved or not,
    and the description; and a block-styled string is never equal to a
    plainly styled one. *)
Theorem formatted_event_shows_address (self : PiHoleStreamer)
    (timestamp resolved ip query_part : string) :
  str_in ip (host_display resolved ip) = true
  ∧ str_in (host_display resolved ip)
      (format_query self timestamp (host_display resolved ip) query_part)
    = true
  ∧ str_in (host_display resolved ip)
      (format_blocked self timestamp (host_display resolved ip) query_part)
    = true
  ∧ str_in query_part
      (format_query self timestamp (host_display resolved ip) query_part)
    = true
  ∧ str_in query_part
      (format_blocked self timestamp (host_display resolved ip) query_part)
    = true
  ∧ (∀ self' timestamp' display' query_part',
       format_blocked self timestamp (host_display resolved ip) query_part
       ≠ format_query self' timestamp' display' query_part').
Proof.
  set (display := host_display resolved ip).
  set (before :=
         "[" +:+ timestamp +:+ "] " +:+ color self +:+ "[" +:+ hostname self
         +:+ "]" +:+ Colors.RESET +:+ " " +:+ Colors.YELLOW +:+ "[").
  split; [|split; [|split; [|split; [|split]]]].
  - apply str_in_spec. unfold display, host_display.
    destruct (String.eqb resolved ip).
    + exists "", "". by rewrite append_empty_r.
    + exists (resolved +:+ " ("), ")". by rewrite !append_assoc.
  - apply str_in_spec.
    exists before, ("]" +:+ Colors.RESET +:+ " " +:+ query_part).
    unfold format_query, before. by rewrite !append_assoc.
  - apply str_in_spec.
    exists (Colors.BOLD +:+ before),
      ("]" +:+ Colors.RESET +:+ " " +:+ Colors.RED +:+ query_part
       +:+ Colors.RESET).
    unfold format_blocked, before. by rewrite !append_assoc.
  - apply str_in_spec.
    exists (before +:+ display +:+ "]" +:+ Colors.RESET +:+ " "), "".
    unfold format_query, before. by rewrite !append_assoc, append_empty_r.
  - apply str_in_spec.
    exists (Colors.BOLD +:+ before +:+ display +:+ "]" +:+ Colors.RESET
            +:+ " " +:+ Colors.RED), Colors.RESET.
    unfold format_blocked, before. by rewrite !append_assoc.
  - intros self' timestamp' display' query_part'. discriminate.
Qed.

End StreamingFurther.

(** ** Concrete runs *)

Lemma resolve_hostname_cache_witness :
  let self := connect (__init__ "pihole1" "pi" Colors.CYAN) in
  let self' := set_dns_cache self (<["192.168.1.100" := "laptop.local"]> ∅) in
  cache_extends self self'
  ∧ (∀ k, k ≠ "192.168.1.100" → dns_cache self' !! k = dns_cache self !! k)
  ∧ (∀ name, Return "laptop.local" = Return name →
             dns_cache self' !! "192.168.1.100" = Some name)
  ∧ same_session self self'
  ∧ last_query_ip self' = last_query_ip self.
Proof.
  apply (resolve_hostname_cache mock_lookup
           (connect (__init__ "pihole1" "pi" Colors.CYAN)) _
           (mkWorld [] 0) (log_lookup (mkWorld [] 0) "192.168.1.100")
           "192.168.1.100" (Return "laptop.local")).
  vm_compute. reflexivity.
Defined.

Lemma stream_logs_frame_witness :
  same_session scenario_self
    (stream_logs mock_lookup mock_clock scenario_self scenario_stdout
       scenario_world [] false None false).1.1.2
  ∧ cache_extends scenario_self
      (stream_logs mock_lookup mock_clock scenario_self scenario_stdout
         scenario_world [] false None false).1.1.2.
Proof.
  apply (stream_logs_frame mock_lookup mock_clock scenario_self _
           scenario_stdout scenario_world
           (stream_logs mock_lookup mock_clock scenario_self scenario_stdout
              scenario_world [] false None false).1.2
           []
           (stream_logs mock_lookup mock_clock scenario_self scenario_stdout
              scenario_world [] false None false).2
           false None false
           (stream_logs mock_lookup mock_clock scenario_self scenario_stdout
              scenario_world [] false None false).1.1.1).
  vm_compute. reflexivity.
Defined.

Lemma stream_logs_appends_witness :
  ∃ added,
    (stream_logs mock_lookup mock_clock scenario_self scenario_stdout
       scenario_world ["earlier event"] false None true).2
    = ["earlier event"] ++ added
    ∧ length added ≤ length scenario_stdout
    ∧ clock (stream_logs mock_lookup mock_clock scenario_self scenario_stdout
               scenario_world ["earlier event"] false None true).1.2
      = clock scenario_world + length added.
Proof.
  apply (stream_logs_appends mock_lookup mock_clock scenario_self
           (stream_logs mock_lookup mock_clock scenario_self scenario_stdout
              scenario_world ["earlier event"] false None true).1.1.2
           scenario_stdout scenario_world _ ["earlier event"] _
           false None true
           (stream_logs mock_lookup mock_clock scenario_self scenario_stdout
              scenario_world ["earlier event"] false None true).1.1.1).
  vm_compute. reflexivity.
Defined.

Lemma blocked_only_emits_blocks_witness :
  ∃ added,
    (stream_logs mock_lookup mock_clock scenario_self scenario_stdout
       scenario_world [] true None true).2
    = [] ++ added
    ∧ ∀ x, x ∈ added →
           ∃ timestamp display query_part,
             x = format_blocked scenario_self timestamp display query_part.
Proof.
  apply (blocked_only_emits_blocks mock_lookup mock_clock scenario_self
           (stream_logs mock_lookup mock_clock scenario_self scenario_stdout
              scenario_world [] true None true).1.1.2
           scenario_stdout scenario_world
           (stream_logs mock_lookup mock_clock scenario_self scenario_stdout
              scenario_world [] true None true).1.2
           [] _ None true
           (stream_logs mock_lookup mock_clock scenario_self scenario_stdout
              scenario_world [] true None true).1.1.1).
  vm_compute. reflexivity.
Defined.

Lemma unresolved_host_shown_by_address_witness :
  let self1 := set_last_query_ip scenario_self (Some "10.0.0.5") in
  let self2 := set_dns_cache self1 (<["10.0.0.5":="10.0.0.5"]> (dns_cache self1)) in
  let formatted :=
    format_query scenario_self (mock_clock (clock scenario_world)) "10.0.0.5"
      "query[A] example.com" in
  handle_line idna_lookup mock_clock false None false scenario_self
    scenario_world [] "query[A] example.com from 10.0.0.5"
  = if host_filter_rejects None "10.0.0.5" "10.0.0.5"
    then (Return tt, self2, log_lookup scenario_world "10.0.0.5", [])
    else (Return tt, self2, tick (log_lookup scenario_world "10.0.0.5"),
          [] ++ [formatted]).
Proof.
  apply (unresolved_host_shown_by_address idna_lookup mock_clock false None
           false scenario_self
           (set_last_query_ip scenario_self (Some "10.0.0.5"))
           scenario_world [] "query[A] example.com from 10.0.0.5"
           "query[A] example.com" "10.0.0.5" false socket_gaierror).
  - vm_compute. reflexivity.
  - reflexivity.
  - vm_compute. reflexivity.
  - vm_compute. reflexivity.
  - right. reflexivity.
Defined.

Lemma lookups_are_tokens_witness :
  ∃ new,
    lookups (stream_logs mock_lookup mock_clock scenario_self scenario_stdout
               scenario_world [] false None false).1.2
    = lookups scenario_world ++ new
    ∧ length new ≤ length scenario_stdout
    ∧ (∀ x, x ∈ new → is_token x = true).
Proof.
  apply (lookups_are_tokens mock_lookup mock_clock scenario_self
           (stream_logs mock_lookup mock_clock scenario_self scenario_stdout
              scenario_world [] false None false).1.1.2
           scenario_stdout scenario_world _ []
           (stream_logs mock_lookup mock_clock scenario_self scenario_stdout
              scenario_world [] false None false).2
           false None false
           (stream_logs mock_lookup mock_clock scenario_self scenario_stdout
              scenario_world [] false None false).1.1.1).
  - simpl. discriminate.
  - vm_compute. reflexivity.
Defined.

Lemma verbose_ignored_with_filters_witness :
  stream_logs mock_lookup mock_clock scenario_self
    ["Oct  4 14:18:46: forwarded example.com to 1.1.1.1"; scenario_query]
    scenario_world [] false (Some "laptop") true
  = stream_logs mock_lookup mock_clock scenario_self
      ["Oct  4 14:18:46: forwarded example.com to 1.1.1.1"; scenario_query]
      scenario_world [] false (Some "laptop") false.
Proof.
  apply (verbose_ignored_with_filters mock_lookup mock_clock scenario_self
           ["Oct  4 14:18:46: forwarded example.com to 1.1.1.1";
            scenario_query]
           scenario_world [] false (Some "laptop")).
  right. exists "laptop". split; [reflexivity | discriminate].
Defined.

Lemma end_of_stream_and_blank_lines_witness :
  stream_logs mock_lookup mock_clock scenario_self
    ([scenario_query] ++ "" :: [scenario_block]) scenario_world []
    false None false
  = stream_logs mock_lookup mock_clock scenario_self [scenario_query]
      scenario_world [] false None false
  ∧ stream_logs mock_lookup mock_clock scenario_self
      ([scenario_query] ++ newline :: [scenario_block]) scenario_world []
      false None false
    = stream_logs mock_lookup mock_clock scenario_self
        ([scenario_query] ++ [scenario_block]) scenario_world []
        false None false.
Proof.
  apply (end_of_stream_and_blank_lines mock_lookup mock_clock scenario_self
           [scenario_query] [scenario_block] newline scenario_world []
           false None false).
  - discriminate.
  - reflexivity.
Defined.

Lemma stream_logs_incremental_witness :
  stream_logs mock_lookup mock_clock scenario_self
    ([scenario_query] ++ [scenario_block]) scenario_world [] false None false
  = stream_logs mock_lookup mock_clock
      (stream_logs mock_lookup mock_clock scenario_self [scenario_query]
         scenario_world [] false None false).1.1.2
      [scenario_block]
      (stream_logs mock_lookup mock_clock scenario_self [scenario_query]
         scenario_world [] false None false).1.2
      (stream_logs mock_lookup mock_clock scenario_self [scenario_query]
         scenario_world [] false None false).2
      false None false.
Proof.
  apply (stream_logs_incremental mock_lookup mock_clock scenario_self _
           [scenario_query] [scenario_block] scenario_world _ [] _
           false None false tt).
  - repeat constructor. discriminate.
  - vm_compute. reflexivity.
Defined.

Lemma last_query_ip_ignores_modes_witness :
  last_query_ip
    (stream_logs mock_lookup mock_clock scenario_self scenario_stdout
       scenario_world [] true (Some "printer") false).1.1.2
  = last_query_ip
      (snd (parse_all scenario_self (effective_lines scenario_stdout))).
Proof.
  apply (last_query_ip_ignores_modes mock_lookup mock_clock scenario_self _
           scenario_stdout scenario_world
           (stream_logs mock_lookup mock_clock scenario_self scenario_stdout
              scenario_world [] true (Some "printer") false).1.2
           []
           (stream_logs mock_lookup mock_clock scenario_self scenario_stdout
              scenario_world [] true (Some "printer") false).2
           true (Some "printer") false tt).
  vm_compute. reflexivity.
Defined.
